(** * correcao_curva: Bezier boundary loop, 12x12 control mesh and remap field

    Shallow embedding of [src/correcao_curva.py].

    Numbers.  Python [int] is [Z].  Python [float] (and the [float32]
    cells of the two maps, and the [qreal] coordinates of a [QPointF]) are
    idealised as exact rationals [Q]; equality of computed coordinates
    is therefore [Qeq] ([==]), the exact counterpart of equality within
    floating-point tolerance.

    Errors.  A Python exception is a value [Raise e] of the [result] type;
    every operation of the source that can raise (true division, list
    indexing, array allocation) is modelled by a function into [result]. *)

From Stdlib Require Import ZArith QArith Qround Qpower List String Ascii Bool Lia Lqa.
Import ListNotations.
Open Scope Z_scope.

(* ------------------------------------------------------------------ *)
(** ** Python primitives *)

Inductive exc : Type :=
| ZeroDivisionError
| IndexError
| ValueError.

Inductive result (A : Type) : Type :=
| Ok (a : A)
| Raise (e : exc).

Arguments Ok {A} a.
Arguments Raise {A} e.

Definition bind {A B : Type} (c : result A) (k : A -> result B) : result B :=
  match c with
  | Ok a => k a
  | Raise e => Raise e
  end.

Notation "x <- c ;; k" := (bind c (fun x => k))
  (at level 61, c at next level, right associativity).
Notation "' p <- c ;; k" := (bind c (fun x => let p := x in k))
  (at level 61, p pattern, c at next level, right associativity).

(** [a / b] with a float or int numerator and an int denominator. *)
Definition py_div (a : Q) (b : Z) : result Q :=
  if b =? 0 then Raise ZeroDivisionError else Ok (a / inject_Z b)%Q.

(** [int(x)] on a float: truncation toward zero. *)
Definition py_int (q : Q) : Z := Z.quot (Qnum q) (Zpos (Qden q)).

(** [np.clip(a, lo, hi)] is [minimum(maximum(a, lo), hi)]. *)
Definition np_clip (a lo hi : Z) : Z := Z.min (Z.max a lo) hi.

(** [range(n)] *)
Definition py_range (n : Z) : list Z := map Z.of_nat (seq 0 (Z.to_nat n)).

(** [l[i]] on a Python list: a negative index counts from the end. *)
Definition py_getitem {A : Type} (l : list A) (i : Z) : result A :=
  let n := Z.of_nat (List.length l) in
  let k := if i <? 0 then i + n else i in
  if (k <? 0) || (n <=? k) then Raise IndexError
  else match nth_error l (Z.to_nat k) with
       | Some a => Ok a
       | None => Raise IndexError
       end.

(** [for i in l: body], threading the mutated state, stopping at the first
    exception. *)
Fixpoint for_each {S : Type} (l : list Z) (body : Z -> S -> result S) (s : S)
  : result S :=
  match l with
  | [] => Ok s
  | i :: r => s' <- body i s ;; for_each r body s'
  end.

(* ------------------------------------------------------------------ *)
(** ** numpy 2-D arrays as lists of rows *)

Definition array2 : Type := list (list Q).

(** [np.zeros((h, w))]: negative dimensions are not allowed. *)
Definition np_zeros (h w : Z) : result array2 :=
  if (h <? 0) || (w <? 0) then Raise ValueError
  else Ok (repeat (repeat 0%Q (Z.to_nat w)) (Z.to_nat h)).

Fixpoint upd {A : Type} (l : list A) (n : nat) (f : A -> A) : list A :=
  match l, n with
  | [], _ => []
  | a :: r, O => f a :: r
  | a :: r, S n' => a :: upd r n' f
  end.

(** [m[v, u] = x], for indices the loops produce (non-negative). *)
Definition array_set (m : array2) (v u : Z) (x : Q) : array2 :=
  upd m (Z.to_nat v) (fun row => upd row (Z.to_nat u) (fun _ => x)).

(** [m[v][u]], cells outside the array read as 0. *)
Definition array_get (m : array2) (v u : Z) : Q :=
  nth (Z.to_nat u) (nth (Z.to_nat v) m []) 0%Q.

Definition shape (m : array2) (h w : Z) : Prop :=
  Z.of_nat (List.length m) = h /\ Forall (fun row => Z.of_nat (List.length row) = w) m.

(* ------------------------------------------------------------------ *)
(** ** gerar_mapas_remap *)

(** The mesh handed to the generator: rows of [(u_red, v_red)] tuples. *)
Definition malha_float : Type := list (list (Q * Q)).

(** Lines 43-55: continuous cell coordinate, truncated index, fraction
    (taken before the clamp) and clamped index along one axis. *)
Record eixo : Type := mk_eixo {
  e_float : Q;      (* i_float *)
  e_trunc : Z;      (* int(i_float) *)
  e_frac : Q;       (* fx *)
  e_int : Z         (* i_int after np.clip *)
}.

Definition indice_eixo (out N orig : Z) : result eixo :=
  i_float <- py_div (inject_Z (out * (N - 1))) orig ;;
  let i_int := py_int i_float in
  let fx := (i_float - inject_Z i_int)%Q in
  Ok (mk_eixo i_float i_int fx (np_clip i_int 0 (N - 2))).

(** Lines 64-66 (and the three copies below them): one mesh point fetched
    and rescaled from display to source coordinates. *)
Definition ponto_malha (malha : malha_float)
    (nova_W_pyqt nova_H_pyqt orig_W_cv orig_H_cv : Z) (j i : Z)
  : result (Q * Q) :=
  linha <- py_getitem malha j ;;
  '(u_red, v_red) <- py_getitem linha i ;;
  x <- py_div (u_red * inject_Z orig_W_cv)%Q nova_W_pyqt ;;
  y <- py_div (v_red * inject_Z orig_H_cv)%Q nova_H_pyqt ;;
  Ok (x, y).

(** Lines 85-92. *)
Definition bilinear (p00 p10 p01 p11 : Q * Q) (fx fy : Q) : Q * Q :=
  let '(x00, y00) := p00 in
  let '(x10, y10) := p10 in
  let '(x01, y01) := p01 in
  let '(x11, y11) := p11 in
  let x_top := (x00 * (1 - fx) + x10 * fx)%Q in
  let y_top := (y00 * (1 - fx) + y10 * fx)%Q in
  let x_bottom := (x01 * (1 - fx) + x11 * fx)%Q in
  let y_bottom := (y01 * (1 - fx) + y11 * fx)%Q in
  ((x_top * (1 - fy) + x_bottom * fy)%Q, (y_top * (1 - fy) + y_bottom * fy)%Q).

(** The body of the inner loop (lines 43-92): the [(x, y)] stored for the
    destination pixel [(u_out, v_out)]. *)
Definition pixel (malha : malha_float)
    (nova_W_pyqt nova_H_pyqt orig_W_cv orig_H_cv N_cols N_rows : Z)
    (u_out v_out : Z) : result (Q * Q) :=
  ei <- indice_eixo u_out N_cols orig_W_cv ;;
  ej <- indice_eixo v_out N_rows orig_H_cv ;;
  let i_int := e_int ei in
  let j_int := e_int ej in
  let P := ponto_malha malha nova_W_pyqt nova_H_pyqt orig_W_cv orig_H_cv in
  p00 <- P j_int i_int ;;
  p10 <- P j_int (i_int + 1) ;;
  p01 <- P (j_int + 1) i_int ;;
  p11 <- P (j_int + 1) (i_int + 1) ;;
  Ok (bilinear p00 p10 p01 p11 (e_frac ei) (e_frac ej)).

(** The [(row, column)] subscripts of the four reads of [malha_float]
    made for one destination pixel (lines 64, 69, 74 and 79), in order. *)
Definition acessos (orig_W_cv orig_H_cv N_cols N_rows : Z) (u_out v_out : Z)
  : result (list (Z * Z)) :=
  ei <- indice_eixo u_out N_cols orig_W_cv ;;
  ej <- indice_eixo v_out N_rows orig_H_cv ;;
  let i_int := e_int ei in
  let j_int := e_int ej in
  Ok [(j_int, i_int); (j_int, i_int + 1);
      (j_int + 1, i_int); (j_int + 1, i_int + 1)].

(** A mesh of [n_rows] rows of [n_cols] points each. *)
Definition malha_forma (malha : malha_float) (n_rows n_cols : Z) : Prop :=
  Z.of_nat (List.length malha) = n_rows
  /\ Forall (fun linha => Z.of_nat (List.length linha) = n_cols) malha.

Definition gerar_mapas_remap (malha : malha_float)
    (nova_W_pyqt nova_H_pyqt orig_W_cv orig_H_cv N_cols N_rows : Z)
  : result (array2 * array2) :=
  map_x <- np_zeros orig_H_cv orig_W_cv ;;
  map_y <- np_zeros orig_H_cv orig_W_cv ;;
  for_each (py_range orig_H_cv) (fun v_out =>
    for_each (py_range orig_W_cv) (fun u_out '(map_x, map_y) =>
      '(x, y) <- pixel malha nova_W_pyqt nova_H_pyqt orig_W_cv orig_H_cv
                   N_cols N_rows u_out v_out ;;
      Ok (array_set map_x v_out u_out x, array_set map_y v_out u_out y)))
    (map_x, map_y).

(** The variant the display-equals-source property compares against: the
    same generator with the display-to-source rescaling of lines 65-66
    (and its three copies) left out, so that the four mesh points enter the
    bilinear blend as they are. *)
Definition ponto_malha_sem_escala (malha : malha_float) (j i : Z)
  : result (Q * Q) :=
  linha <- py_getitem malha j ;;
  py_getitem linha i.

Definition pixel_sem_escala (malha : malha_float)
    (orig_W_cv orig_H_cv N_cols N_rows : Z) (u_out v_out : Z)
  : result (Q * Q) :=
  ei <- indice_eixo u_out N_cols orig_W_cv ;;
  ej <- indice_eixo v_out N_rows orig_H_cv ;;
  let i_int := e_int ei in
  let j_int := e_int ej in
  let P := ponto_malha_sem_escala malha in
  p00 <- P j_int i_int ;;
  p10 <- P j_int (i_int + 1) ;;
  p01 <- P (j_int + 1) i_int ;;
  p11 <- P (j_int + 1) (i_int + 1) ;;
  Ok (bilinear p00 p10 p01 p11 (e_frac ei) (e_frac ej)).

Definition gerar_mapas_sem_escala (malha : malha_float)
    (orig_W_cv orig_H_cv N_cols N_rows : Z) : result (array2 * array2) :=
  map_x <- np_zeros orig_H_cv orig_W_cv ;;
  map_y <- np_zeros orig_H_cv orig_W_cv ;;
  for_each (py_range orig_H_cv) (fun v_out =>
    for_each (py_range orig_W_cv) (fun u_out '(map_x, map_y) =>
      '(x, y) <- pixel_sem_escala malha orig_W_cv orig_H_cv
                   N_cols N_rows u_out v_out ;;
      Ok (array_set map_x v_out u_out x, array_set map_y v_out u_out y)))
    (map_x, map_y).

(* ------------------------------------------------------------------ *)
(** ** QPointF *)

Record QPointF : Type := mkPoint { px : Q; py : Q }.

Definition padd (a b : QPointF) : QPointF :=
  mkPoint (px a + px b) (py a + py b).

Definition psub (a b : QPointF) : QPointF :=
  mkPoint (px a - px b) (py a - py b).

(** [c * p] and [p * c] *)
Definition pscale (c : Q) (p : QPointF) : QPointF :=
  mkPoint (px p * c) (py p * c).

Definition peq (a b : QPointF) : Prop := px a == px b /\ py a == py b.

Infix "=p=" := peq (at level 70, no associativity).

(* ------------------------------------------------------------------ *)
(** ** ImageViewer.gerar_malha_12x12 *)

Fixpoint mapM {A B : Type} (f : A -> result B) (l : list A) : result (list B) :=
  match l with
  | [] => Ok []
  | a :: r => b <- f a ;; bs <- mapM f r ;; Ok (b :: bs)
  end.

(** [np.linspace(0, 1, n)] *)
Definition np_linspace01 (n : Z) : list Q :=
  map (fun k => inject_Z k / inject_Z (n - 1))%Q (py_range n).

(** [range(0, 12, 3)] *)
Definition range_0_12_3 : list Z := [0; 3; 6; 9].

Definition curva : Type := (QPointF * QPointF * QPointF * QPointF)%type.

(** [tuple(reversed(c))] *)
Definition reversed (c : curva) : curva :=
  let '(p0, p1, p2, p3) := c in (p3, p2, p1, p0).

(** Lines 248-254 (the same expression as the method of lines 227-233). *)
Definition ponto_bezier (p0 p1 p2 p3 : QPointF) (t : Q) : QPointF :=
  padd (padd (padd (pscale ((1 - t) ^ 3) p0)
                   (pscale (3 * (1 - t) ^ 2 * t) p1))
             (pscale (3 * (1 - t) * t ^ 2) p2))
       (pscale (t ^ 3) p3).

Definition amostrar_curva (c : curva) (n : Z) : list QPointF :=
  let '(p0, p1, p2, p3) := c in
  map (fun t => ponto_bezier p0 p1 p2 p3 t) (np_linspace01 n).

(** Lines 260-266: the four segments of the loop. *)
Definition curvas_do_laco (pontos : list QPointF) : result (list curva) :=
  mapM (fun i =>
          p0 <- py_getitem pontos i ;;
          p1 <- py_getitem pontos (i + 1) ;;
          p2 <- py_getitem pontos (i + 2) ;;
          p3 <- py_getitem pontos ((i + 3) mod 12) ;;
          Ok (p0, p1, p2, p3))
       range_0_12_3.

Definition malha : Type := list (list QPointF).

Definition gerar_malha_12x12 (pontos : list QPointF) : result malha :=
  curvas <- curvas_do_laco pontos ;;
  match curvas with
  | [curva_topo; curva_direita; curva_base; curva_esquerda] =>
      let curva_esquerda := reversed curva_esquerda in
      let curva_base := reversed curva_base in
      let amostras_topo := amostrar_curva curva_topo 12 in
      let amostras_base := amostrar_curva curva_base 12 in
      mapM (fun j =>
              let alpha := (inject_Z j / 11)%Q in
              mapM (fun i =>
                      pt_top <- py_getitem amostras_topo i ;;
                      pt_bot <- py_getitem amostras_base i ;;
                      Ok (padd (pscale (1 - alpha) pt_top)
                               (pscale alpha pt_bot)))
                   (py_range 12))
           (py_range 12)
  | _ => Raise ValueError
  end.

(** Line 316: [[(pt.x(), pt.y()) for pt in linha] for linha in malha_pyqt] *)
Definition para_tuplas (m : malha) : malha_float :=
  map (map (fun pt => (px pt, py pt))) m.

(* ------------------------------------------------------------------ *)
(** ** ControlPoint.itemChange

    The editor state is the list [parent.pontos] of the positions of the
    control points; the item with [idx = i] is the [i]-th one.  [setPos]
    is Qt's: it sends [ItemPositionChange] to the item's [itemChange] and
    then gives the item the position that call returns.  [moveBy(dx, dy)]
    is [setPos(pos() + QPointF(dx, dy))], so it re-enters [itemChange] for
    the moved item; [depth] is the interpreter's remaining call depth. *)

Definition estado : Type := list QPointF.

Definition pos (pontos : estado) (idx : Z) : option QPointF :=
  match py_getitem pontos idx with
  | Ok p => Some p
  | Raise _ => None
  end.

Definition obind {A B : Type} (c : option A) (k : A -> option B) : option B :=
  match c with
  | Some a => k a
  | None => None
  end.

(** [None] stands for an exception leaving the handler (an index out of
    [parent.pontos], or the call depth used up). *)
Fixpoint setPos (depth : nat) (pontos : estado) (idx : Z) (value : QPointF)
  : option estado :=
  match depth with
  | O => None
  | S d =>
      let moveBy (pontos : estado) (i : Z) (delta : QPointF) :=
        obind (pos pontos i) (fun p => setPos d pontos i (padd p delta)) in
      (* itemChange(ItemPositionChange, value) *)
      obind
        (if (idx mod 3 =? 0) && (Z.of_nat (List.length pontos) =? 12) then
           obind (pos pontos idx) (fun self_pos =>
             let delta := psub value self_pos in
             let idx1 := (idx + 1) mod 12 in
             let idx2 := (idx - 1) mod 12 in
             obind (moveBy pontos idx1 delta) (fun pontos =>
               moveBy pontos idx2 delta))
         else Some pontos)
        (fun pontos =>
           (* the item takes the value returned by itemChange *)
           Some (upd pontos (Z.to_nat idx) (fun _ => value)))
  end.

(** Dragging the item [idx] by [(dx, dy)]. *)
Definition mover (depth : nat) (pontos : estado) (idx : Z) (d : QPointF)
  : option estado :=
  obind (pos pontos idx) (fun p => setPos depth pontos idx (padd p d)).

(* ------------------------------------------------------------------ *)
(** ** os.path.splitext (posixpath: sep = "/", no altsep, extsep = ".") *)

Open Scope string_scope.

(** [p.rfind(c)]: index of the last occurrence, -1 when there is none. *)
Fixpoint rfind_aux (c : ascii) (p : string) (i : Z) (found : Z) : Z :=
  match p with
  | EmptyString => found
  | String a r => rfind_aux c r (i + 1) (if Ascii.eqb a c then i else found)
  end.

Definition rfind (c : ascii) (p : string) : Z := rfind_aux c p 0 (-1).

(** [p[:k]] and [p[k:]] for [0 <= k]. *)
Definition ate (p : string) (k : Z) : string :=
  String.substring 0 (Z.to_nat k) p.

Definition a_partir (p : string) (k : Z) : string :=
  String.substring (Z.to_nat k) (String.length p - Z.to_nat k) p.

(** The [while filenameIndex < dotIndex] loop of [genericpath._splitext]:
    [true] when some character of [p[filenameIndex:dotIndex]] is not a
    dot. *)
Fixpoint tem_nome (p : string) (filenameIndex : Z) (n : nat) : bool :=
  match n with
  | O => false
  | S n' =>
      match String.get (Z.to_nat filenameIndex) p with
      | Some a =>
          if Ascii.eqb a "." then tem_nome p (filenameIndex + 1) n' else true
      | None => true
      end
  end.

Definition splitext (p : string) : string * string :=
  let sepIndex := rfind "/" p in
  let dotIndex := rfind "." p in
  if (sepIndex <? dotIndex)%Z
     && tem_nome p (sepIndex + 1) (Z.to_nat (dotIndex - (sepIndex + 1)))
  then (ate p dotIndex, a_partir p dotIndex)
  else (p, "").

(** Lines 340-341. *)
Definition nome_salvar (image_path : string) : string :=
  let '(base, ext) := splitext image_path in
  base ++ "_corrigida" ++ ext.

(** What the spec's naming convention reads. *)
Definition nome_spec (image_path : string) : string :=
  let '(base, ext) := splitext image_path in
  base ++ "_corrected" ++ ext.

(* ------------------------------------------------------------------ *)
(** ** ImageViewer.processar_remapeamento

    The run modelled is the one in which the [cv2] calls that the method
    makes outside its [try] ([cv2.remap], [cv2.imshow], [cv2.waitKey],
    [cv2.destroyAllWindows]) return normally; what [cv2.imread] and
    [cv2.imwrite] do is left to the [cv2] record below. *)

Record ImageViewer : Type := mkViewer {
  image_path : string;
  orig_W_cv : Z;
  orig_H_cv : Z;
  nova_W_pyqt : Z;
  nova_H_pyqt : Z;
  quad_pontos : list QPointF
}.

(** What [cv2] does to the file system: whether [imread] yields an image,
    and whether [imwrite] writes the file, declines (returns [False]) or
    raises. *)
Inductive escrita : Type := Escreve | Recusa | Levanta.

Record cv2 : Type := mkCv2 {
  imread : string -> bool;
  imwrite : string -> escrita
}.

Inductive evento : Type :=
| Imprime (s : string)
| Imshow (janela : string)
| Arquivo (nome : string).      (* a file written by cv2.imwrite *)

Definition processar_remapeamento (cv : cv2) (self : ImageViewer)
  : result (list evento) :=
  let e0 := [Imprime "Processando remapeamento..."] in
  malha_pyqt <- gerar_malha_12x12 (quad_pontos self) ;;
  let malha_float := para_tuplas malha_pyqt in
  mapas <- gerar_mapas_remap malha_float
             (nova_W_pyqt self) (nova_H_pyqt self)
             (orig_W_cv self) (orig_H_cv self) 12 12 ;;
  if negb (imread cv (image_path self)) then
    Ok (e0 ++ [Imprime ("Erro OpenCV: Não foi possível carregar a imagem em " ++ image_path self)])%list
  else
    let e1 := (e0 ++ [Imshow "Imagem Original"; Imshow "Imagem Corrigida"])%list in
    let nome := nome_salvar (image_path self) in
    match imwrite cv nome with
    | Escreve =>
        Ok (e1 ++ [Arquivo nome; Imprime ("Imagem corrigida salva como: " ++ nome)])%list
    | Recusa =>
        Ok (e1 ++ [Imprime ("Imagem corrigida salva como: " ++ nome)])%list
    | Levanta =>
        Ok (e1 ++ [Imprime "Erro ao salvar a imagem corrigida: "])%list
    end.

(** The whole commit pipeline up to the field (lines 313-323). *)
Definition campo (self : ImageViewer) : result (array2 * array2) :=
  malha_pyqt <- gerar_malha_12x12 (quad_pontos self) ;;
  gerar_mapas_remap (para_tuplas malha_pyqt)
    (nova_W_pyqt self) (nova_H_pyqt self)
    (orig_W_cv self) (orig_H_cv self) 12 12.

Close Scope string_scope.

(* ------------------------------------------------------------------ *)
(** ** Vocabulary of the properties and concrete inputs *)

(** The two nested loops of the generator over any loop body [pix]. *)
Definition preencher (pix : Z -> Z -> result (Q * Q)) (h w : Z)
  : result (array2 * array2) :=
  map_x <- np_zeros h w ;;
  map_y <- np_zeros h w ;;
  for_each (py_range h) (fun v_out =>
    for_each (py_range w) (fun u_out '(map_x, map_y) =>
      '(x, y) <- pix u_out v_out ;;
      Ok (array_set map_x v_out u_out x, array_set map_y v_out u_out y)))
    (map_x, map_y).

Definition campo_de (f : Z -> Z -> Q * Q) (h w : Z) (mapas : array2 * array2)
  : Prop :=
  shape (fst mapas) h w /\ shape (snd mapas) h w
  /\ forall u v, 0 <= u < w -> 0 <= v < h ->
       array_get (fst mapas) v u = fst (f u v)
       /\ array_get (snd mapas) v u = snd (f u v).

Definition valor {A : Type} (d : A) (r : result A) : A :=
  match r with
  | Ok a => a
  | Raise _ => d
  end.

(** Two runs agree: the same exception, or results related by [R]. *)
Definition rel {A : Type} (R : A -> A -> Prop) (r1 r2 : result A) : Prop :=
  match r1, r2 with
  | Ok a1, Ok a2 => R a1 a2
  | Raise e1, Raise e2 => e1 = e2
  | _, _ => False
  end.

Definition par_eq (p q : Q * Q) : Prop := (fst p == fst q /\ snd p == snd q)%Q.

Definition array_eq (a b : array2) : Prop := Forall2 (Forall2 Qeq) a b.

Definition campo_eq (f g : array2 * array2) : Prop :=
  array_eq (fst f) (fst g) /\ array_eq (snd f) (snd g).

(** [sum w_i * p_i] *)
Definition combinacao (ws : list Q) (ps : list QPointF) : QPointF :=
  fold_right (fun wp acc => padd (pscale (fst wp) (snd wp)) acc)
             (mkPoint 0 0) (combine ws ps).

(** [p] is a convex combination of the points [ps]. *)
Definition no_fecho_convexo (p : QPointF) (ps : list QPointF) : Prop :=
  exists ws,
    List.length ws = List.length ps
    /\ Forall (fun w => 0 <= w)%Q ws
    /\ (fold_right Qplus 0 ws == 1)%Q
    /\ p =p= combinacao ws ps.

(** The vertical blend of line 283. *)
Definition mistura (alpha : Q) (pt_top pt_bot : QPointF) : QPointF :=
  padd (pscale (1 - alpha) pt_top) (pscale alpha pt_bot).

(** A loop with bowed edges, and the same loop with the four lateral
    handles (indices 4, 5, 10, 11) moved. *)
Definition laco_a : list QPointF :=
  [mkPoint 10 10; mkPoint 40 4; mkPoint 60 4; mkPoint 90 10;
   mkPoint 96 40; mkPoint 96 60;
   mkPoint 90 90; mkPoint 60 97; mkPoint 40 97; mkPoint 10 90;
   mkPoint 3 60; mkPoint 3 40].

Definition laco_b : list QPointF :=
  [mkPoint 10 10; mkPoint 40 4; mkPoint 60 4; mkPoint 90 10;
   mkPoint 70 35; mkPoint 120 66;
   mkPoint 90 90; mkPoint 60 97; mkPoint 40 97; mkPoint 10 90;
   mkPoint (-8) 61; mkPoint 25 39].

Definition ponto (pontos : list QPointF) (k : nat) : QPointF :=
  nth k pontos (mkPoint 0 0).

(** The loop on the corners of a [w] x [h] image, handles at 1/3 and 2/3
    of each straight edge. *)
Definition laco_reto (w h : Z) : list QPointF :=
  let W := inject_Z w in
  let H := inject_Z h in
  [mkPoint 0 0; mkPoint (W / 3) 0; mkPoint (2 * W / 3) 0; mkPoint W 0;
   mkPoint W (H / 3); mkPoint W (2 * H / 3);
   mkPoint W H; mkPoint (2 * W / 3) H; mkPoint (W / 3) H; mkPoint 0 H;
   mkPoint 0 (2 * H / 3); mkPoint 0 (H / 3)].

Definition visor_100 : ImageViewer :=
  mkViewer "xadrez.png" 100 100 100 100 (laco_reto 100 100).

(** The mesh of the straight loop on a [w] x [h] image, as lines 276-285
    build it from the samples of its top and bottom edges. *)
Definition grade_reta (w h : Z) : malha :=
  map (fun j =>
         map (fun i =>
                mistura (inject_Z j / 11)
                  (ponto_bezier (mkPoint 0 0) (mkPoint (inject_Z w / 3) 0)
                     (mkPoint (2 * inject_Z w / 3) 0) (mkPoint (inject_Z w) 0)
                     (inject_Z i / inject_Z (12 - 1)))
                  (ponto_bezier (mkPoint 0 (inject_Z h))
                     (mkPoint (inject_Z w / 3) (inject_Z h))
                     (mkPoint (2 * inject_Z w / 3) (inject_Z h))
                     (mkPoint (inject_Z w) (inject_Z h))
                     (inject_Z i / inject_Z (12 - 1))))
             (py_range 12))
      (py_range 12).

(** A session in which the image is read and the file is written. *)
Definition cv_sem_falhas : cv2 := mkCv2 (fun _ => true) (fun _ => Escreve).

Definition visor_pagina : ImageViewer :=
  mkViewer "fotos/pagina.png" 2 2 2 2 laco_a.

Definition eventos_pagina : list evento :=
  [Imprime "Processando remapeamento...";
   Imshow "Imagem Original"; Imshow "Imagem Corrigida";
   Arquivo "fotos/pagina_corrigida.png";
   Imprime "Imagem corrigida salva como: fotos/pagina_corrigida.png"].

(* ------------------------------------------------------------------ *)
(** ** The other functions of the file *)

(** ImageViewer.amostrar_bordas (lines 235-244): the four segments of the
    loop, each sampled at 12 parameters. *)
Definition amostrar_bordas (pontos : list QPointF)
  : result (list (list QPointF)) :=
  mapM (fun i =>
          p0 <- py_getitem pontos i ;;
          p1 <- py_getitem pontos (i + 1) ;;
          p2 <- py_getitem pontos (i + 2) ;;
          p3 <- py_getitem pontos ((i + 3) mod 12) ;;
          Ok (map (fun t => ponto_bezier p0 p1 p2 p3 t) (np_linspace01 12)))
       range_0_12_3.

(** The elements of a [QPainterPath]. *)
Inductive elemento : Type :=
| MoveTo (p : QPointF)
| CubicTo (c1 c2 fim : QPointF).

(** BezierQuad.updatePath (lines 137-146): the path handed to [setPath],
    [None] when the method returns at line 139 and leaves the path as it
    is. *)
Definition updatePath (pontos : list QPointF) : result (option (list elemento)) :=
  if negb (Z.of_nat (List.length pontos) =? 12) then Ok None
  else
    p0 <- py_getitem pontos 0 ;;
    p1 <- py_getitem pontos 1 ;;
    p2 <- py_getitem pontos 2 ;;
    p3 <- py_getitem pontos 3 ;;
    p4 <- py_getitem pontos 4 ;;
    p5 <- py_getitem pontos 5 ;;
    p6 <- py_getitem pontos 6 ;;
    p7 <- py_getitem pontos 7 ;;
    p8 <- py_getitem pontos 8 ;;
    p9 <- py_getitem pontos 9 ;;
    p10 <- py_getitem pontos 10 ;;
    p11 <- py_getitem pontos 11 ;;
    p0' <- py_getitem pontos 0 ;;
    Ok (Some [MoveTo p0; CubicTo p1 p2 p3; CubicTo p4 p5 p6;
              CubicTo p7 p8 p9; CubicTo p10 p11 p0']).

(** BezierQuad.paint (lines 156-164): the dashed guide lines drawn, as
    pairs of end points, in drawing order. *)
Definition paint (pontos : list QPointF) : result (list (QPointF * QPointF)) :=
  linhas <- mapM (fun i =>
                    quina_atual <- py_getitem pontos i ;;
                    quina_proxima <- py_getitem pontos ((i + 3) mod 12) ;;
                    handle1 <- py_getitem pontos (i + 1) ;;
                    handle2 <- py_getitem pontos (i + 2) ;;
                    Ok [(quina_atual, handle1); (quina_proxima, handle2)])
                 range_0_12_3 ;;
  Ok (List.concat linhas).

(** ControlPoint.__init__ (lines 107-110): the brush of the item. *)
Inductive cor : Type := Amarelo | Verde.

Definition cor_do_ponto (idx : Z) : cor :=
  if existsb (Z.eqb idx) [0; 3; 6; 9] then Amarelo else Verde.

(** [m[j][i]] on a mesh, the origin standing for a missing cell. *)
Definition celula_malha (m : malha) (j i : Z) : QPointF :=
  nth (Z.to_nat i) (nth (Z.to_nat j) m []) (mkPoint 0 0).

(** Every control point moved by [d]. *)
Definition transladar (d : QPointF) (pontos : list QPointF) : list QPointF :=
  map (fun p => padd p d) pontos.

(** The cubic that [cubicTo] appends for one segment of the loop: its two
    handles and its end point. *)
Definition cubica (c : curva) : elemento :=
  let '(_, p1, p2, p3) := c in CubicTo p1 p2 p3.

(** [min(a, b)]: [b] only when [b < a]. *)
Definition py_min (a b : Q) : Q := if Qle_bool a b then a else b.

(** Lines 199-216: the loop seeded around the centre of the displayed
    image (the float [1.3] is the rational 13/10). *)
Definition pontos_iniciais (nova_W_pyqt nova_H_pyqt : Z) : list QPointF :=
  let cx := (inject_Z nova_W_pyqt / 2)%Q in
  let cy := (inject_Z nova_H_pyqt / 2)%Q in
  let offset := (inject_Z (Z.min nova_W_pyqt nova_H_pyqt) / 4)%Q in
  [mkPoint (cx - offset) (cy - offset);
   mkPoint cx (cy - offset * (13 # 10));
   mkPoint cx (cy - offset * (13 # 10));
   mkPoint (cx + offset) (cy - offset);
   mkPoint (cx + offset * (13 # 10)) cy;
   mkPoint (cx + offset * (13 # 10)) cy;
   mkPoint (cx + offset) (cy + offset);
   mkPoint cx (cy + offset * (13 # 10));
   mkPoint cx (cy + offset * (13 # 10));
   mkPoint (cx - offset) (cy + offset);
   mkPoint (cx - offset * (13 # 10)) cy;
   mkPoint (cx - offset * (13 # 10)) cy].

(** Line 190: the display scale. *)
Definition escala_de (largura_tela altura_tela orig_W_cv orig_H_cv : Z)
  : result Q :=
  a <- py_div (inject_Z (largura_tela * 4) / 5) orig_W_cv ;;
  b <- py_div (inject_Z (altura_tela * 2) / 3) orig_H_cv ;;
  Ok (py_min (py_min a b) 1).

(** How [ImageViewer.__init__] ends: with the viewer built, with
    [sys.exit(codigo)], or with an exception. *)
Inductive inicio : Type :=
| Visor (self : ImageViewer)
| SystemExit (codigo : Z)
| Excecao (e : exc).

(** ImageViewer.__init__ (lines 167-225).  [pixmap] is the size of the
    image [QPixmap] loaded, [None] for a null pixmap; the screen size is
    what Tk reports.  The twelve items of the [BezierQuad] are created at
    the seeded positions. *)
Definition ImageViewer_init (caminho : string) (pixmap : option (Z * Z))
    (largura_tela altura_tela : Z) : inicio :=
  match pixmap with
  | None => SystemExit 1
  | Some (w, h) =>
      match escala_de largura_tela altura_tela w h with
      | Raise e => Excecao e
      | Ok escala =>
          let nova_W := py_int (inject_Z w * escala) in
          let nova_H := py_int (inject_Z h * escala) in
          Visor (mkViewer caminho w h nova_W nova_H (pontos_iniciais nova_W nova_H))
      end
  end.

(** A 1 x 10000 strip opened on a 1920 x 1080 screen. *)
Definition visor_tira : ImageViewer :=
  mkViewer "tira.png" 1 10000 0 720 (pontos_iniciais 0 720).

(** [p] lies in the rectangle [[0, a] x [0, b]]. *)
Definition dentro (a b : Q) (p : QPointF) : Prop :=
  (0 <= px p /\ px p <= a)%Q /\ (0 <= py p /\ py p <= b)%Q.

(** A 200 x 150 image shown at 100 x 100 with the loop [laco_a]. *)
Definition visor_a : ImageViewer :=
  mkViewer "quadro.png" 200 150 100 100 laco_a.

(** The positions of the dots [self.pontos_malha[i][j]] of the view. *)
Definition grade_pontos : Type := list (list QPointF).

Definition grade_get (g : grade_pontos) (i j : Z) : QPointF :=
  nth (Z.to_nat j) (nth (Z.to_nat i) g []) (mkPoint 0 0).

Definition forma_da_grade (g : grade_pontos) (n : Z) : Prop :=
  Z.of_nat (List.length g) = n
  /\ Forall (fun col => Z.of_nat (List.length col) = n) g.

(** ImageViewer.desenhar_malha (lines 289-307): the dot positions after
    the call, from the control points and from [self.pontos_malha] before
    the call ([None] while the attribute does not exist). *)
Definition desenhar_malha (pontos : list QPointF)
    (pontos_malha : option grade_pontos) : result grade_pontos :=
  malha <- gerar_malha_12x12 pontos ;;
  match pontos_malha with
  | None =>
      mapM (fun i =>
              mapM (fun j =>
                      linha <- py_getitem malha j ;;
                      py_getitem linha i)
                   (py_range 12))
           (py_range 12)
  | Some g =>
      for_each (py_range 12) (fun i =>
        for_each (py_range 12) (fun j g =>
          coluna <- py_getitem g i ;;
          _ <- py_getitem coluna j ;;
          linha <- py_getitem malha j ;;
          pt <- py_getitem linha i ;;
          Ok (upd g (Z.to_nat i)
                (fun coluna => upd coluna (Z.to_nat j) (fun _ => pt)))))
        g
  end.

(* ================================================================== *)
(** * Properties *)

(** ** The primitives on concrete values *)

Example py_int_trunca : py_int (-7 # 2) = -3 /\ py_int (7 # 2) = 3.
Proof. split; reflexivity. Qed.

Example np_clip_limites_trocados : np_clip 0 0 (-1) = -1 /\ np_clip 5 0 10 = 5.
Proof. split; reflexivity. Qed.

Example py_getitem_negativo :
  py_getitem [10; 20; 30] (-1) = Ok 30
  /\ py_getitem [10; 20; 30] 3 = Raise IndexError
  /\ py_getitem [10; 20; 30] (-4) = Raise IndexError.
Proof. repeat split; reflexivity. Qed.

Open Scope string_scope.

Example splitext_exemplos :
  splitext "fotos/pagina.png" = ("fotos/pagina", ".png")
  /\ splitext "a.b/pagina" = ("a.b/pagina", "")
  /\ splitext "dir/.oculto" = ("dir/.oculto", "")
  /\ splitext "arq.tar.gz" = ("arq.tar", ".gz").
Proof. repeat split; reflexivity. Qed.

Close Scope string_scope.

(** A handle drags nothing with it, and a corner needs two nested calls. *)
Example mover_handle :
  mover 1 [mkPoint 0 0; mkPoint 1 0; mkPoint 2 0] 1 (mkPoint 0 5)
  = Some [mkPoint 0 0; mkPoint (1 + 0) (0 + 5); mkPoint 2 0]
  /\ mover 1 laco_a 0 (mkPoint 5 (-3)) = None.
Proof. split; reflexivity. Qed.

(** ** Truncation and the cell index along one axis *)

Lemma py_int_floor (q : Q) : (0 <= q)%Q -> py_int q = Qfloor q.
Proof.
  destruct q as [n d]. unfold py_int, Qfloor, Qle. simpl. intro Hn.
  apply Z.quot_div_nonneg; lia.
Qed.

Lemma py_div_ok (a : Q) (b : Z) :
  b <> 0 -> py_div a b = Ok (a / inject_Z b)%Q.
Proof.
  intro Hb. unfold py_div. destruct (Z.eqb_spec b 0); [contradiction | reflexivity].
Qed.

Lemma razao_limites (out N orig : Z) :
  2 <= N -> 1 <= orig -> 0 <= out < orig ->
  (0 <= inject_Z (out * (N - 1)) / inject_Z orig
   /\ inject_Z (out * (N - 1)) / inject_Z orig < inject_Z (N - 1))%Q.
Proof.
  intros HN Ho Hu.
  assert (Hpos : (0 < inject_Z orig)%Q).
  { change 0%Q with (inject_Z 0). rewrite <- Zlt_Qlt. lia. }
  split.
  - apply Qle_shift_div_l; [assumption |].
    rewrite Qmult_0_l. change 0%Q with (inject_Z 0). rewrite <- Zle_Qle. nia.
  - apply Qlt_shift_div_r; [assumption |].
    rewrite <- inject_Z_mult, <- Zlt_Qlt. nia.
Qed.

Lemma indice_eixo_limites (out N orig : Z) :
  2 <= N -> 1 <= orig -> 0 <= out < orig ->
  exists e, indice_eixo out N orig = Ok e
    /\ (e_float e == inject_Z (out * (N - 1)) / inject_Z orig)%Q
    /\ 0 <= e_trunc e <= N - 2
    /\ e_int e = e_trunc e
    /\ (0 <= e_frac e /\ e_frac e < 1)%Q
    /\ (e_frac e == e_float e - inject_Z (e_int e))%Q.
Proof.
  intros HN Ho Hu.
  destruct (razao_limites out N orig HN Ho Hu) as [H0 H1].
  unfold indice_eixo. rewrite py_div_ok by lia. cbn [bind].
  set (q := (inject_Z (out * (N - 1)) / inject_Z orig)%Q) in *.
  rewrite (py_int_floor q H0).
  assert (Hlo : 0 <= Qfloor q).
  { change 0 with (Qfloor 0). apply Qfloor_resp_le. exact H0. }
  assert (Hhi : Qfloor q <= N - 2).
  { assert (Qfloor q < N - 1); [| lia].
    rewrite Zlt_Qlt. eapply Qle_lt_trans; [apply Qfloor_le | exact H1]. }
  assert (Hclip : np_clip (Qfloor q) 0 (N - 2) = Qfloor q).
  { unfold np_clip. lia. }
  eexists. split; [reflexivity |]. cbn [e_float e_trunc e_frac e_int].
  rewrite Hclip.
  repeat split; try reflexivity; try assumption.
  - pose proof (Qfloor_le q). lra.
  - pose proof (Qlt_floor q) as Hlt. rewrite inject_Z_plus in Hlt.
    change (inject_Z 1) with 1%Q in Hlt. lra.
Qed.

(** ** Arrays and loops *)

Lemma upd_length {A : Type} (l : list A) (n : nat) (f : A -> A) :
  List.length (upd l n f) = List.length l.
Proof.
  revert n. induction l as [| a r IH]; intros [| n]; simpl; auto.
Qed.

Lemma nth_upd_same {A : Type} (l : list A) (n : nat) (f : A -> A) (d : A) :
  (n < List.length l)%nat -> nth n (upd l n f) d = f (nth n l d).
Proof.
  revert n. induction l as [| a r IH]; intros [| n] Hn; simpl in *;
    try lia; auto. apply IH. lia.
Qed.

Lemma nth_upd_other {A : Type} (l : list A) (n m : nat) (f : A -> A) (d : A) :
  n <> m -> nth m (upd l n f) d = nth m l d.
Proof.
  revert n m. induction l as [| a r IH]; intros [| n] [| m] Hnm; simpl;
    try congruence; auto.
Qed.

Lemma Forall_upd {A : Type} (P : A -> Prop) (l : list A) (n : nat) (f : A -> A) :
  (forall a, P a -> P (f a)) -> Forall P l -> Forall P (upd l n f).
Proof.
  intros Hf Hl. revert n. induction Hl as [| a r Ha Hr IH]; intros [| n];
    simpl; constructor; auto.
Qed.

Lemma shape_array_set (m : array2) (h w v u : Z) (x : Q) :
  shape m h w -> shape (array_set m v u x) h w.
Proof.
  intros [Hh Hw]. unfold array_set. split.
  - rewrite upd_length. exact Hh.
  - apply Forall_upd; [| exact Hw].
    intros row Hrow. rewrite upd_length. exact Hrow.
Qed.

Lemma shape_row (m : array2) (h w : Z) (v : nat) :
  shape m h w -> (v < List.length m)%nat -> Z.of_nat (List.length (nth v m [])) = w.
Proof.
  intros [_ Hw] Hv. rewrite Forall_forall in Hw. apply Hw. apply nth_In. exact Hv.
Qed.

Lemma array_get_set_same (m : array2) (h w v u : Z) (x : Q) :
  shape m h w -> 0 <= v < h -> 0 <= u < w ->
  array_get (array_set m v u x) v u = x.
Proof.
  intros Hs Hv Hu. unfold array_get, array_set.
  assert (Hlen : (Z.to_nat v < List.length m)%nat) by (destruct Hs; lia).
  rewrite nth_upd_same by exact Hlen.
  rewrite nth_upd_same; [reflexivity |].
  pose proof (shape_row m h w (Z.to_nat v) Hs Hlen). lia.
Qed.

Lemma array_get_set_other (m : array2) (v u v' u' : Z) (x : Q) :
  0 <= v -> 0 <= u -> 0 <= v' -> 0 <= u' -> (v, u) <> (v', u') ->
  array_get (array_set m v u x) v' u' = array_get m v' u'.
Proof.
  intros Hv Hu Hv' Hu' Hne. unfold array_get, array_set.
  destruct (Z.eq_dec v v') as [-> | Hvv].
  - destruct (Nat.lt_ge_cases (Z.to_nat v') (List.length m)) as [Hlt | Hge].
    + rewrite nth_upd_same by exact Hlt.
      apply nth_upd_other. intro Heq. apply Hne. f_equal. lia.
    + rewrite !(nth_overflow _ []); [reflexivity | exact Hge |].
      rewrite upd_length. exact Hge.
  - rewrite nth_upd_other; [reflexivity | lia].
Qed.

Lemma np_zeros_shape (h w : Z) :
  0 <= h -> 0 <= w -> exists m, np_zeros h w = Ok m /\ shape m h w.
Proof.
  intros Hh Hw. unfold np_zeros.
  destruct (Z.ltb_spec h 0); [lia |]. destruct (Z.ltb_spec w 0); [lia |].
  simpl. eexists. split; [reflexivity |]. split.
  - rewrite repeat_length. lia.
  - apply Forall_forall. intros row Hin. apply repeat_spec in Hin. subst row.
    rewrite repeat_length. lia.
Qed.

Lemma in_py_range (n k : Z) : In k (py_range n) <-> 0 <= k < n.
Proof.
  unfold py_range. rewrite in_map_iff. split.
  - intros [i [<- Hi]]. apply in_seq in Hi. lia.
  - intros Hk. exists (Z.to_nat k). split; [lia |]. apply in_seq. lia.
Qed.

(** Hoare rule for [for k in range(n)] when no iteration raises. *)
Lemma for_each_range {St : Type} (Inv : Z -> St -> Prop)
    (body : Z -> St -> result St) (n : Z) (s : St) :
  Inv 0 s ->
  (forall k s, 0 <= k < n -> Inv k s ->
     exists s', body k s = Ok s' /\ Inv (k + 1) s') ->
  exists s', for_each (py_range n) body s = Ok s' /\ Inv (Z.max 0 n) s'.
Proof.
  intros H0 Hstep. unfold py_range.
  assert (Hgen : forall m a s, (a + m = Z.to_nat n)%nat -> Inv (Z.of_nat a) s ->
            exists s', for_each (map Z.of_nat (seq a m)) body s = Ok s'
                       /\ Inv (Z.of_nat (a + m)) s').
  { induction m as [| m IH]; intros a s0 Ham Hinv.
    - exists s0. simpl. rewrite Nat.add_0_r. auto.
    - simpl. destruct (Hstep (Z.of_nat a) s0) as [s1 [Hb Hi]]; [lia | exact Hinv |].
      rewrite Hb. cbn [bind].
      destruct (IH (S a) s1) as [s2 [Hf Hi2]]; [lia | |].
      + replace (Z.of_nat (S a)) with (Z.of_nat a + 1) by lia. exact Hi.
      + exists s2. split; [exact Hf |].
        replace (a + S m)%nat with (S a + m)%nat by lia. exact Hi2. }
  destruct (Hgen (Z.to_nat n) 0%nat s) as [s' [Hf Hi]]; [lia | exact H0 |].
  exists s'. split; [exact Hf |].
  replace (Z.max 0 n) with (Z.of_nat (0 + Z.to_nat n)) by lia. exact Hi.
Qed.

Lemma gerar_mapas_remap_preencher malha nW nH W H Nc Nr :
  gerar_mapas_remap malha nW nH W H Nc Nr
  = preencher (pixel malha nW nH W H Nc Nr) H W.
Proof. reflexivity. Qed.

Lemma preencher_ok (pix : Z -> Z -> result (Q * Q)) (f : Z -> Z -> Q * Q)
    (h w : Z) :
  0 <= h -> 0 <= w ->
  (forall u v, 0 <= u < w -> 0 <= v < h -> pix u v = Ok (f u v)) ->
  exists mapas, preencher pix h w = Ok mapas /\ campo_de f h w mapas.
Proof.
  intros Hh Hw Hpix. unfold preencher.
  destruct (np_zeros_shape h w Hh Hw) as [z [Hz Hsz]]. rewrite Hz. cbn [bind].
  (* rows below [k] are final *)
  set (feito := fun (k j : Z) (s : array2 * array2) =>
    shape (fst s) h w /\ shape (snd s) h w
    /\ forall u v, 0 <= u < w -> 0 <= v < h -> (v < k \/ (v = k /\ u < j)) ->
         array_get (fst s) v u = fst (f u v)
         /\ array_get (snd s) v u = snd (f u v)).
  destruct (for_each_range (fun k s => feito k 0 s)
              (fun v_out => for_each (py_range w) (fun u_out '(map_x, map_y) =>
                 '(x, y) <- pix u_out v_out ;;
                 Ok (array_set map_x v_out u_out x, array_set map_y v_out u_out y)))
              h (z, z)) as [s' [Hrun Hinv]].
  - split; [exact Hsz | split; [exact Hsz | intros; lia]].
  - intros k s Hk Hinv.
    destruct (for_each_range (fun j s => feito k j s)
                (fun u_out '(map_x, map_y) =>
                   '(x, y) <- pix u_out k ;;
                   Ok (array_set map_x k u_out x, array_set map_y k u_out y))
                w s) as [s1 [Hrun1 Hinv1]].
    + exact Hinv.
    + intros j [mx my] Hj (Hsx & Hsy & Hcells).
      rewrite (Hpix j k Hj Hk). destruct (f j k) as [x y] eqn:Hf. cbn.
      eexists. split; [reflexivity |]. cbn [fst snd] in *.
      split; [apply shape_array_set; exact Hsx |].
      split; [apply shape_array_set; exact Hsy |].
      intros u v Hu Hv Hdone. cbn [fst snd].
      destruct (Z.eq_dec v k) as [-> | Hvk];
        [destruct (Z.eq_dec u j) as [-> | Huj] |].
      * rewrite (array_get_set_same mx h w), (array_get_set_same my h w)
          by (assumption || lia).
        rewrite Hf. auto.
      * rewrite !array_get_set_other by (try lia; congruence).
        apply Hcells; lia.
      * rewrite !array_get_set_other by (try lia; congruence).
        apply Hcells; lia.
    + exists s1. split; [exact Hrun1 |].
      destruct Hinv1 as (Hsx & Hsy & Hcells).
      split; [exact Hsx | split; [exact Hsy |]].
      intros u v Hu Hv Hdone. apply Hcells; lia.
  - exists s'. split; [exact Hrun |].
    destruct Hinv as (Hsx & Hsy & Hcells).
    split; [exact Hsx | split; [exact Hsy |]].
    intros u v Hu Hv. apply Hcells; lia.
Qed.

(** ** The generator on a valid configuration *)

Lemma py_getitem_ok {A : Type} (l : list A) (i : Z) :
  0 <= i < Z.of_nat (List.length l) -> exists a, py_getitem l i = Ok a /\ In a l.
Proof.
  intro Hi. unfold py_getitem.
  destruct (Z.ltb_spec i 0); [lia |].
  destruct (Z.ltb_spec i 0); [lia |].
  destruct (Z.leb_spec (Z.of_nat (List.length l)) i); [lia |]. simpl.
  destruct (nth_error l (Z.to_nat i)) as [a |] eqn:Hn.
  - exists a. split; [reflexivity |]. eapply nth_error_In. exact Hn.
  - apply nth_error_None in Hn. lia.
Qed.

Lemma ponto_malha_ok (malha : malha_float) (nW nH W H Nr Nc j i : Z) :
  malha_forma malha Nr Nc -> nW <> 0 -> nH <> 0 ->
  0 <= j < Nr -> 0 <= i < Nc ->
  exists p, ponto_malha malha nW nH W H j i = Ok p.
Proof.
  intros [Hr Hc] HnW HnH Hj Hi. unfold ponto_malha.
  destruct (py_getitem_ok malha j) as [linha [-> Hin]]; [lia |]. cbn [bind].
  rewrite Forall_forall in Hc. specialize (Hc linha Hin).
  destruct (py_getitem_ok linha i) as [[u_red v_red] [-> _]]; [lia |]. cbn [bind].
  rewrite !py_div_ok by assumption. cbn [bind]. eexists. reflexivity.
Qed.

Lemma pixel_ok (malha : malha_float) (nW nH W H Nc Nr u v : Z) :
  malha_forma malha Nr Nc -> nW <> 0 -> nH <> 0 ->
  2 <= Nc -> 2 <= Nr -> 0 <= u < W -> 0 <= v < H ->
  exists q, pixel malha nW nH W H Nc Nr u v = Ok q.
Proof.
  intros Hm HnW HnH HNc HNr Hu Hv. unfold pixel.
  destruct (indice_eixo_limites u Nc W) as [ei (-> & _ & Hti & Hci & _)]; try lia.
  destruct (indice_eixo_limites v Nr H) as [ej (-> & _ & Htj & Hcj & _)]; try lia.
  cbn [bind]. rewrite Hci, Hcj.
  destruct (ponto_malha_ok malha nW nH W H Nr Nc (e_trunc ej) (e_trunc ei))
    as [p00 ->]; try assumption; try lia.
  destruct (ponto_malha_ok malha nW nH W H Nr Nc (e_trunc ej) (e_trunc ei + 1))
    as [p10 ->]; try assumption; try lia.
  destruct (ponto_malha_ok malha nW nH W H Nr Nc (e_trunc ej + 1) (e_trunc ei))
    as [p01 ->]; try assumption; try lia.
  destruct (ponto_malha_ok malha nW nH W H Nr Nc (e_trunc ej + 1) (e_trunc ei + 1))
    as [p11 ->]; try assumption; try lia.
  cbn [bind]. eexists. reflexivity.
Qed.

Lemma gerar_mapas_remap_ok (malha : malha_float) (nW nH W H Nc Nr : Z) :
  malha_forma malha Nr Nc -> nW <> 0 -> nH <> 0 ->
  2 <= Nc -> 2 <= Nr -> 0 <= W -> 0 <= H ->
  exists map_x map_y,
    gerar_mapas_remap malha nW nH W H Nc Nr = Ok (map_x, map_y)
    /\ shape map_x H W /\ shape map_y H W
    /\ forall u v, 0 <= u < W -> 0 <= v < H ->
         pixel malha nW nH W H Nc Nr u v
         = Ok (array_get map_x v u, array_get map_y v u).
Proof.
  intros Hm HnW HnH HNc HNr HW HH. rewrite gerar_mapas_remap_preencher.
  destruct (preencher_ok (pixel malha nW nH W H Nc Nr)
              (fun u v => valor (0%Q, 0%Q) (pixel malha nW nH W H Nc Nr u v))
              H W HH HW) as [[mx my] [Hrun (Hsx & Hsy & Hcells)]].
  - intros u v Hu Hv.
    destruct (pixel_ok malha nW nH W H Nc Nr u v) as [q ->]; auto.
  - exists mx, my. cbn [fst snd] in *. repeat split; try assumption.
    + destruct Hsx; assumption.
    + destruct Hsx; assumption.
    + destruct Hsy; assumption.
    + destruct Hsy; assumption.
    + intros u v Hu Hv. destruct (Hcells u v Hu Hv) as [-> ->].
      destruct (pixel_ok malha nW nH W H Nc Nr u v) as [[x y] ->]; auto.
Qed.

(** C10: for [N_cols, N_rows >= 2], image dimensions [>= 1] and a
    destination pixel inside the image, both index computations succeed,
    the truncated indices [int(i_float)] and [int(j_float)] already lie in
    [[0, N_cols - 2]] and [[0, N_rows - 2]], [np.clip] returns them
    unchanged, and the fractions [fx], [fy] taken before the clamp lie in
    [[0, 1)] and equal [i_float - i_int], [j_float - j_int] for the clamped
    indices too. *)
Theorem clamp_sem_efeito (N_cols N_rows orig_W orig_H u_out v_out : Z) :
  2 <= N_cols -> 2 <= N_rows -> 1 <= orig_W -> 1 <= orig_H ->
  0 <= u_out < orig_W -> 0 <= v_out < orig_H ->
  exists ei ej,
    indice_eixo u_out N_cols orig_W = Ok ei
    /\ indice_eixo v_out N_rows orig_H = Ok ej
    /\ 0 <= e_trunc ei <= N_cols - 2
    /\ 0 <= e_trunc ej <= N_rows - 2
    /\ e_int ei = e_trunc ei
    /\ e_int ej = e_trunc ej
    /\ (0 <= e_frac ei /\ e_frac ei < 1)%Q
    /\ (0 <= e_frac ej /\ e_frac ej < 1)%Q
    /\ (e_frac ei == e_float ei - inject_Z (e_int ei))%Q
    /\ (e_frac ej == e_float ej - inject_Z (e_int ej))%Q.
Proof.
  intros HNc HNr HW HH Hu Hv.
  destruct (indice_eixo_limites u_out N_cols orig_W HNc HW Hu)
    as [ei (Hi & _ & Hti & Hci & Hfi & Hei)].
  destruct (indice_eixo_limites v_out N_rows orig_H HNr HH Hv)
    as [ej (Hj & _ & Htj & Hcj & Hfj & Hej)].
  exists ei, ej. repeat split; try assumption; try lia;
    solve [apply Hfi | apply Hfj].
Qed.

Lemma clamp_sem_efeito_witness :
  exists ei ej,
    indice_eixo 37 12 100 = Ok ei
    /\ indice_eixo 79 12 80 = Ok ej
    /\ 0 <= e_trunc ei <= 12 - 2
    /\ 0 <= e_trunc ej <= 12 - 2
    /\ e_int ei = e_trunc ei
    /\ e_int ej = e_trunc ej
    /\ (0 <= e_frac ei /\ e_frac ei < 1)%Q
    /\ (0 <= e_frac ej /\ e_frac ej < 1)%Q
    /\ (e_frac ei == e_float ei - inject_Z (e_int ei))%Q
    /\ (e_frac ej == e_float ej - inject_Z (e_int ej))%Q.
Proof. apply (clamp_sem_efeito 12 12 100 80 37 79); lia. Defined.

(** C8 (as the code has it): with [N_cols = N_rows = 2], a 2x2 mesh,
    positive image dimensions and non-zero display dimensions (the
    divisors of lines 65-66), the generator returns two maps of shape
    [orig_H_cv] x [orig_W_cv]; for every destination pixel both clamped
    indices are 0, so the four reads of the mesh are at the subscripts
    (0,0), (0,1), (1,0) and (1,1), all in [{0, 1}], and the pixel is the
    bilinear blend of the four points read there. *)
Theorem malha_2x2_campo_valido (m : malha_float) (nova_W nova_H orig_W orig_H : Z) :
  malha_forma m 2 2 -> nova_W <> 0 -> nova_H <> 0 ->
  0 < orig_W -> 0 < orig_H ->
  (exists map_x map_y,
     gerar_mapas_remap m nova_W nova_H orig_W orig_H 2 2 = Ok (map_x, map_y)
     /\ shape map_x orig_H orig_W /\ shape map_y orig_H orig_W)
  /\ forall u_out v_out, 0 <= u_out < orig_W -> 0 <= v_out < orig_H ->
       (exists l, acessos orig_W orig_H 2 2 u_out v_out = Ok l
          /\ l = [(0, 0); (0, 1); (1, 0); (1, 1)]
          /\ Forall (fun ji => (fst ji = 0 \/ fst ji = 1)
                               /\ (snd ji = 0 \/ snd ji = 1)) l)
       /\ exists ei ej q,
            indice_eixo u_out 2 orig_W = Ok ei
            /\ indice_eixo v_out 2 orig_H = Ok ej
            /\ e_int ei = 0 /\ e_int ej = 0
            /\ pixel m nova_W nova_H orig_W orig_H 2 2 u_out v_out
               = (p00 <- ponto_malha m nova_W nova_H orig_W orig_H 0 0 ;;
                  p10 <- ponto_malha m nova_W nova_H orig_W orig_H 0 1 ;;
                  p01 <- ponto_malha m nova_W nova_H orig_W orig_H 1 0 ;;
                  p11 <- ponto_malha m nova_W nova_H orig_W orig_H 1 1 ;;
                  Ok (bilinear p00 p10 p01 p11 (e_frac ei) (e_frac ej)))
            /\ pixel m nova_W nova_H orig_W orig_H 2 2 u_out v_out = Ok q.
Proof.
  intros Hm HnW HnH HW HH. split.
  - destruct (gerar_mapas_remap_ok m nova_W nova_H orig_W orig_H 2 2)
      as [mx [my (Hrun & Hsx & Hsy & _)]]; try assumption; try lia.
    exists mx, my. auto.
  - intros u v Hu Hv.
    destruct (indice_eixo_limites u 2 orig_W) as [ei (Hi & _ & Hti & Hci & _)];
      try lia.
    destruct (indice_eixo_limites v 2 orig_H) as [ej (Hj & _ & Htj & Hcj & _)];
      try lia.
    assert (Hi0 : e_int ei = 0) by lia.
    assert (Hj0 : e_int ej = 0) by lia.
    split.
    + unfold acessos. rewrite Hi, Hj. cbn [bind]. rewrite Hi0, Hj0.
      eexists. split; [reflexivity |]. split; [reflexivity |].
      repeat apply Forall_cons; try apply Forall_nil; cbn; auto.
    + destruct (pixel_ok m nova_W nova_H orig_W orig_H 2 2 u v) as [q Hq];
        try assumption; try lia.
      exists ei, ej, q.
      split; [exact Hi |]. split; [exact Hj |].
      split; [exact Hi0 |]. split; [exact Hj0 |]. split; [| exact Hq].
      unfold pixel. rewrite Hi, Hj. cbn [bind]. rewrite Hi0, Hj0. reflexivity.
Qed.

Lemma malha_2x2_campo_valido_witness :
  (exists map_x map_y,
     gerar_mapas_remap [[(0, 0); (9, 0)]; [(0, 9); (9, 9)]]%Q 10 10 3 2 2 2
     = Ok (map_x, map_y)
     /\ shape map_x 2 3 /\ shape map_y 2 3)
  /\ forall u_out v_out, 0 <= u_out < 3 -> 0 <= v_out < 2 ->
       (exists l, acessos 3 2 2 2 u_out v_out = Ok l
          /\ l = [(0, 0); (0, 1); (1, 0); (1, 1)]
          /\ Forall (fun ji => (fst ji = 0 \/ fst ji = 1)
                               /\ (snd ji = 0 \/ snd ji = 1)) l)
       /\ exists ei ej q,
            indice_eixo u_out 2 3 = Ok ei
            /\ indice_eixo v_out 2 2 = Ok ej
            /\ e_int ei = 0 /\ e_int ej = 0
            /\ pixel [[(0, 0); (9, 0)]; [(0, 9); (9, 9)]]%Q 10 10 3 2 2 2 u_out v_out
               = (p00 <- ponto_malha [[(0, 0); (9, 0)]; [(0, 9); (9, 9)]]%Q 10 10 3 2 0 0 ;;
                  p10 <- ponto_malha [[(0, 0); (9, 0)]; [(0, 9); (9, 9)]]%Q 10 10 3 2 0 1 ;;
                  p01 <- ponto_malha [[(0, 0); (9, 0)]; [(0, 9); (9, 9)]]%Q 10 10 3 2 1 0 ;;
                  p11 <- ponto_malha [[(0, 0); (9, 0)]; [(0, 9); (9, 9)]]%Q 10 10 3 2 1 1 ;;
                  Ok (bilinear p00 p10 p01 p11 (e_frac ei) (e_frac ej)))
            /\ pixel [[(0, 0); (9, 0)]; [(0, 9); (9, 9)]]%Q 10 10 3 2 2 2 u_out v_out
               = Ok q.
Proof.
  apply (malha_2x2_campo_valido [[(0, 0); (9, 0)]; [(0, 9); (9, 9)]]%Q 10 10 3 2);
    try lia.
  split; [reflexivity | repeat constructor].
Defined.

(** C8, counterexample: a 2x2 mesh, [N_cols = N_rows = 2] and the positive
    image dimensions 3 x 2, with the display width 0: the rescaling of
    line 65 divides by it and the call raises [ZeroDivisionError] instead
    of returning a field. *)
Lemma malha_2x2_exibicao_nula :
  malha_forma [[(0, 0); (9, 0)]; [(0, 9); (9, 9)]]%Q 2 2
  /\ 0 < 3 /\ 0 < 2
  /\ gerar_mapas_remap [[(0, 0); (9, 0)]; [(0, 9); (9, 9)]]%Q 0 10 3 2 2 2
     = Raise ZeroDivisionError.
Proof.
  split; [split; [reflexivity | repeat constructor] |].
  split; [lia |]. split; [lia |]. vm_compute. reflexivity.
Qed.

Lemma for_each_skip {St : Type} (l : list Z) (body : Z -> St -> result St) (s : St) :
  (forall i s, In i l -> body i s = Ok s) -> for_each l body s = Ok s.
Proof.
  induction l as [| i r IH]; intro Hb; simpl; [reflexivity |].
  rewrite Hb by (left; reflexivity). cbn [bind].
  apply IH. intros j s' Hj. apply Hb. right. exact Hj.
Qed.

(** C1 (as the code has it): the generator has no validation step of its
    own.  A negative image dimension is refused by the array allocation
    ([ValueError]) before the pixel loop.  With [orig_W_cv = 0] or
    [orig_H_cv = 0] (and neither negative) the call raises nothing and
    returns the two freshly allocated maps, which have no cell, whatever
    [N_cols], [N_rows], the display dimensions and the mesh are.  With
    [N_cols, N_rows >= 2], positive image dimensions, non-zero display
    dimensions and an [N_rows] x [N_cols] mesh the call raises nothing. *)
Theorem sem_validacao_de_configuracao
    (m : malha_float) (nova_W nova_H orig_W orig_H N_cols N_rows : Z) :
  (orig_W < 0 \/ orig_H < 0 ->
     gerar_mapas_remap m nova_W nova_H orig_W orig_H N_cols N_rows
     = Raise ValueError)
  /\ (0 <= orig_W -> 0 <= orig_H -> orig_W = 0 \/ orig_H = 0 ->
      gerar_mapas_remap m nova_W nova_H orig_W orig_H N_cols N_rows
      = Ok (repeat (repeat 0%Q (Z.to_nat orig_W)) (Z.to_nat orig_H),
            repeat (repeat 0%Q (Z.to_nat orig_W)) (Z.to_nat orig_H)))
  /\ (2 <= N_cols -> 2 <= N_rows -> 0 < orig_W -> 0 < orig_H ->
      nova_W <> 0 -> nova_H <> 0 -> malha_forma m N_rows N_cols ->
      exists map_x map_y,
        gerar_mapas_remap m nova_W nova_H orig_W orig_H N_cols N_rows
        = Ok (map_x, map_y)).
Proof.
  split; [| split].
  - intros Hneg. unfold gerar_mapas_remap, np_zeros.
    destruct (Z.ltb_spec orig_H 0); [reflexivity |].
    destruct (Z.ltb_spec orig_W 0); [reflexivity | lia].
  - intros HW HH Hzero. unfold gerar_mapas_remap, np_zeros.
    destruct (Z.ltb_spec orig_H 0); [lia |].
    destruct (Z.ltb_spec orig_W 0); [lia |]. cbn [orb bind].
    apply for_each_skip. intros v s Hv.
    destruct Hzero as [-> | ->].
    + reflexivity.
    + apply in_py_range in Hv. lia.
  - intros HNc HNr HW HH HnW HnH Hm.
    destruct (gerar_mapas_remap_ok m nova_W nova_H orig_W orig_H N_cols N_rows)
      as [mx [my [Hrun _]]]; try assumption; try lia.
    exists mx, my. exact Hrun.
Qed.

Lemma sem_validacao_de_configuracao_witness :
  gerar_mapas_remap [] 7 7 (-1) 4 0 0 = Raise ValueError
  /\ gerar_mapas_remap [] 7 7 0 3 1 1 = Ok ([[]; []; []], [[]; []; []])
  /\ exists map_x map_y,
       gerar_mapas_remap [[(0, 0); (9, 0)]; [(0, 9); (9, 9)]]%Q 10 10 3 2 2 2
       = Ok (map_x, map_y).
Proof.
  split; [| split].
  - apply (sem_validacao_de_configuracao [] 7 7 (-1) 4 0 0). left. lia.
  - apply (sem_validacao_de_configuracao [] 7 7 0 3 1 1); [lia | lia | left; reflexivity].
  - apply (sem_validacao_de_configuracao
             [[(0, 0); (9, 0)]; [(0, 9); (9, 9)]]%Q 10 10 3 2 2 2); try lia.
    split; [reflexivity | repeat constructor].
Defined.

(** C1, counterexample: calls with [N_cols = N_rows = 1 < 2] and calls with
    [orig_W_cv = 0] return maps instead of failing with a configuration
    error, and a call with [N_cols = N_rows = 0] on an empty mesh surfaces
    as an [IndexError] raised by the subscript of line 64. *)
Lemma configuracao_invalida_aceita :
  gerar_mapas_remap [[(5, 7)]]%Q 1 1 1 1 1 1 = Ok ([[5%Q]], [[7%Q]])
  /\ gerar_mapas_remap [] 12 12 0 3 12 12 = Ok ([[]; []; []], [[]; []; []])
  /\ gerar_mapas_remap [] 1 1 1 1 0 0 = Raise IndexError.
Proof. repeat split; vm_compute; reflexivity. Qed.

(** ** Display dimensions equal to the source dimensions *)

Lemma rel_bind {A B : Type} (RA : A -> A -> Prop) (RB : B -> B -> Prop)
    (c1 c2 : result A) (k1 k2 : A -> result B) :
  rel RA c1 c2 ->
  (forall a1 a2, RA a1 a2 -> rel RB (k1 a1) (k2 a2)) ->
  rel RB (bind c1 k1) (bind c2 k2).
Proof.
  destruct c1, c2; simpl; intros Hc Hk; auto; contradiction.
Qed.

Lemma for_each_rel {St : Type} (R : St -> St -> Prop) (l : list Z)
    (b1 b2 : Z -> St -> result St) (s1 s2 : St) :
  (forall i t1 t2, In i l -> R t1 t2 -> rel R (b1 i t1) (b2 i t2)) ->
  R s1 s2 -> rel R (for_each l b1 s1) (for_each l b2 s2).
Proof.
  revert s1 s2. induction l as [| i r IH]; intros s1 s2 Hb Hs; simpl.
  - exact Hs.
  - apply rel_bind with (RA := R).
    + apply Hb; [left; reflexivity | exact Hs].
    + intros t1 t2 Ht. apply IH; [| exact Ht].
      intros j u1 u2 Hj. apply Hb. right. exact Hj.
Qed.

Lemma Forall2_upd {A : Type} (R : A -> A -> Prop) (l1 l2 : list A) (n : nat)
    (f1 f2 : A -> A) :
  (forall a1 a2, R a1 a2 -> R (f1 a1) (f2 a2)) ->
  Forall2 R l1 l2 -> Forall2 R (upd l1 n f1) (upd l2 n f2).
Proof.
  intros Hf Hl. revert n. induction Hl as [| a1 a2 r1 r2 Ha Hr IH]; intros [| n];
    simpl; constructor; auto.
Qed.

Lemma array_eq_set (a b : array2) (v u : Z) (x y : Q) :
  array_eq a b -> (x == y)%Q -> array_eq (array_set a v u x) (array_set b v u y).
Proof.
  intros Hab Hxy. unfold array_eq, array_set.
  apply Forall2_upd; [| exact Hab].
  intros r1 r2 Hr. apply Forall2_upd; [| exact Hr]. intros _ _ _. exact Hxy.
Qed.

Lemma array_eq_refl (a : array2) : array_eq a a.
Proof.
  induction a as [| row r IH]; constructor; [| exact IH].
  induction row; constructor; [reflexivity | assumption].
Qed.

Lemma bilinear_par_eq (p00 p10 p01 p11 q00 q10 q01 q11 : Q * Q) (fx fy : Q) :
  par_eq p00 q00 -> par_eq p10 q10 -> par_eq p01 q01 -> par_eq p11 q11 ->
  par_eq (bilinear p00 p10 p01 p11 fx fy) (bilinear q00 q10 q01 q11 fx fy).
Proof.
  destruct p00, p10, p01, p11, q00, q10, q01, q11.
  unfold par_eq, bilinear. cbn [fst snd].
  intros [-> ->] [-> ->] [-> ->] [-> ->]. split; reflexivity.
Qed.

Lemma reescala_unitaria (c : Q) (w : Z) :
  w <> 0 -> exists q, py_div (c * inject_Z w) w = Ok q /\ (q == c)%Q.
Proof.
  intro Hw. rewrite py_div_ok by exact Hw. eexists. split; [reflexivity |].
  field. intro H0. apply Hw. unfold Qeq in H0. simpl in H0. lia.
Qed.

Lemma ponto_malha_mesma_dimensao (m : malha_float) (W H j i : Z) :
  W <> 0 -> H <> 0 ->
  rel par_eq (ponto_malha m W H W H j i) (ponto_malha_sem_escala m j i).
Proof.
  intros HW HH. unfold ponto_malha, ponto_malha_sem_escala.
  destruct (py_getitem m j) as [linha | e]; cbn [bind]; [| reflexivity].
  destruct (py_getitem linha i) as [[u_red v_red] | e]; cbn [bind]; [| reflexivity].
  destruct (reescala_unitaria u_red W HW) as [x [-> Hx]].
  destruct (reescala_unitaria v_red H HH) as [y [-> Hy]].
  cbn. split; assumption.
Qed.

Lemma pixel_mesma_dimensao (m : malha_float) (W H Nc Nr u v : Z) :
  W <> 0 -> H <> 0 ->
  rel par_eq (pixel m W H W H Nc Nr u v) (pixel_sem_escala m W H Nc Nr u v).
Proof.
  intros HW HH. unfold pixel, pixel_sem_escala.
  destruct (indice_eixo u Nc W) as [ei | e]; cbn [bind]; [| reflexivity].
  destruct (indice_eixo v Nr H) as [ej | e]; cbn [bind]; [| reflexivity].
  eapply rel_bind; [apply ponto_malha_mesma_dimensao; assumption |].
  intros p00 q00 H00.
  eapply rel_bind; [apply ponto_malha_mesma_dimensao; assumption |].
  intros p10 q10 H10.
  eapply rel_bind; [apply ponto_malha_mesma_dimensao; assumption |].
  intros p01 q01 H01.
  eapply rel_bind; [apply ponto_malha_mesma_dimensao; assumption |].
  intros p11 q11 H11.
  cbn. apply bilinear_par_eq; assumption.
Qed.

(** C5: when the display dimensions are the source dimensions, rescaling a
    coordinate ([c * orig / nova], a division that raises only for a zero
    dimension) gives back [c], i.e. both per-axis scale factors are 1, and
    for every mesh the generator and its variant without the rescaling
    step end alike: with the same exception, or with fields that agree in
    every cell. *)
Theorem mesma_dimensao_sem_reescala (m : malha_float) (W H N_cols N_rows : Z) :
  (forall c,
     rel Qeq (py_div (c * inject_Z W) W)
             (if W =? 0 then Raise ZeroDivisionError else Ok c)
     /\ rel Qeq (py_div (c * inject_Z H) H)
                (if H =? 0 then Raise ZeroDivisionError else Ok c))
  /\ rel campo_eq (gerar_mapas_remap m W H W H N_cols N_rows)
                  (gerar_mapas_sem_escala m W H N_cols N_rows).
Proof.
  split.
  - intros c. split.
    + destruct (Z.eqb_spec W 0) as [-> | HW]; [reflexivity |].
      destruct (reescala_unitaria c W HW) as [x [-> Hx]]. exact Hx.
    + destruct (Z.eqb_spec H 0) as [-> | HH]; [reflexivity |].
      destruct (reescala_unitaria c H HH) as [y [-> Hy]]. exact Hy.
  - unfold gerar_mapas_remap, gerar_mapas_sem_escala.
    destruct (np_zeros H W) as [z | e]; cbn [bind]; [| reflexivity].
    apply for_each_rel; [| split; apply array_eq_refl].
    intros v t1 t2 Hv Ht. apply in_py_range in Hv.
    apply for_each_rel; [| exact Ht].
    intros u [mx1 my1] [mx2 my2] Hu [Hx Hy]. apply in_py_range in Hu.
    cbn [fst snd] in Hx, Hy.
    eapply rel_bind; [apply pixel_mesma_dimensao; lia |].
    intros [x1 y1] [x2 y2] [Hxx Hyy]. cbn in Hxx, Hyy |- *.
    split; apply array_eq_set; assumption.
Qed.

(** ** The cubic Bernstein evaluation *)

(** C7: for [t] in [[0, 1]] the point [ponto_bezier(p0, p1, p2, p3, t)] is
    a convex combination of the four control points, with the Bernstein
    polynomials as weights. *)
Theorem ponto_bezier_no_fecho_convexo (p0 p1 p2 p3 : QPointF) (t : Q) :
  (0 <= t)%Q -> (t <= 1)%Q ->
  no_fecho_convexo (ponto_bezier p0 p1 p2 p3 t) [p0; p1; p2; p3].
Proof.
  intros H0 H1.
  assert (Hs : (0 <= 1 - t)%Q) by lra.
  exists [((1 - t) ^ 3)%Q; (3 * (1 - t) ^ 2 * t)%Q; (3 * (1 - t) * t ^ 2)%Q; (t ^ 3)%Q].
  split; [reflexivity |]. split; [| split].
  - repeat apply Forall_cons; try apply Forall_nil.
    + apply Qpower_0_le. exact Hs.
    + apply Qmult_le_0_compat; [| exact H0].
      apply Qmult_le_0_compat; [lra |]. apply Qpower_0_le. exact Hs.
    + apply Qmult_le_0_compat; [| apply Qpower_0_le; exact H0].
      apply Qmult_le_0_compat; [lra | exact Hs].
    + apply Qpower_0_le. exact H0.
  - cbn [fold_right]. ring.
  - unfold ponto_bezier, combinacao, peq, padd, pscale.
    cbn [combine fold_right fst snd px py]. split; ring.
Qed.

Lemma ponto_bezier_no_fecho_convexo_witness :
  no_fecho_convexo
    (ponto_bezier (mkPoint 0 0) (mkPoint 1 2) (mkPoint 3 2) (mkPoint 4 0) (1 # 3))
    [mkPoint 0 0; mkPoint 1 2; mkPoint 3 2; mkPoint 4 0].
Proof.
  apply (ponto_bezier_no_fecho_convexo
           (mkPoint 0 0) (mkPoint 1 2) (mkPoint 3 2) (mkPoint 4 0) (1 # 3));
    unfold Qle; simpl; lia.
Defined.

(** ** The 12x12 mesh *)

Lemma mapM_ok {A B : Type} (f : A -> result B) (g : A -> B) (l : list A) :
  (forall a, In a l -> f a = Ok (g a)) -> mapM f l = Ok (map g l).
Proof.
  induction l as [| a r IH]; intro Hf; simpl; [reflexivity |].
  rewrite Hf by (left; reflexivity). cbn [bind].
  rewrite IH; [reflexivity |]. intros b Hb. apply Hf. right. exact Hb.
Qed.

Lemma py_getitem_map_range {A : Type} (g : Z -> A) (n i : Z) :
  0 <= i < n -> py_getitem (map g (py_range n)) i = Ok (g i).
Proof.
  intro Hi. unfold py_getitem, py_range.
  rewrite !length_map, length_seq.
  destruct (Z.ltb_spec i 0); [lia |].
  destruct (Z.ltb_spec i 0); [lia |].
  destruct (Z.leb_spec (Z.of_nat (Z.to_nat n)) i); [lia |]. cbn [orb].
  rewrite map_map.
  rewrite (nth_error_nth' _ (g (Z.of_nat 0))) by (rewrite length_map, length_seq; lia).
  rewrite (map_nth (fun k => g (Z.of_nat k))), seq_nth by lia.
  f_equal. f_equal. lia.
Qed.

Lemma amostrar_curva_getitem (p0 p1 p2 p3 : QPointF) (n i : Z) :
  0 <= i < n ->
  py_getitem (amostrar_curva (p0, p1, p2, p3) n) i
  = Ok (ponto_bezier p0 p1 p2 p3 (inject_Z i / inject_Z (n - 1))).
Proof.
  intro Hi. unfold amostrar_curva, np_linspace01. rewrite map_map.
  apply (py_getitem_map_range
           (fun k => ponto_bezier p0 p1 p2 p3 (inject_Z k / inject_Z (n - 1)))).
  exact Hi.
Qed.

Lemma gerar_malha_12x12_eq (a0 a1 a2 a3 a4 a5 a6 a7 a8 a9 a10 a11 : QPointF) :
  gerar_malha_12x12 [a0; a1; a2; a3; a4; a5; a6; a7; a8; a9; a10; a11]
  = Ok (map (fun j =>
          map (fun i =>
                 mistura (inject_Z j / 11)
                   (ponto_bezier a0 a1 a2 a3 (inject_Z i / inject_Z (12 - 1)))
                   (ponto_bezier a9 a8 a7 a6 (inject_Z i / inject_Z (12 - 1))))
              (py_range 12))
          (py_range 12)).
Proof.
  unfold gerar_malha_12x12.
  change (curvas_do_laco [a0; a1; a2; a3; a4; a5; a6; a7; a8; a9; a10; a11])
    with (Ok [(a0, a1, a2, a3); (a3, a4, a5, a6);
              (a6, a7, a8, a9); (a9, a10, a11, a0)]).
  cbn [bind reversed].
  apply mapM_ok. intros j _. apply mapM_ok. intros i Hi.
  apply in_py_range in Hi.
  rewrite !amostrar_curva_getitem by exact Hi. reflexivity.
Qed.

Lemma doze_pontos (l : list QPointF) :
  List.length l = 12%nat ->
  exists a0 a1 a2 a3 a4 a5 a6 a7 a8 a9 a10 a11,
    l = [a0; a1; a2; a3; a4; a5; a6; a7; a8; a9; a10; a11].
Proof.
  intro Hl.
  do 12 (destruct l as [| ? l]; [discriminate Hl |]).
  destruct l; [| discriminate Hl].
  do 12 eexists. reflexivity.
Qed.

(** C4: two 12-point loops that agree at every index other than 4, 5, 10
    and 11 (the handles inside the right and left segments) give the same
    result of [gerar_malha_12x12], cell for cell. *)
Theorem malha_ignora_handles_laterais (l1 l2 : list QPointF) :
  List.length l1 = 12%nat -> List.length l2 = 12%nat ->
  (forall i : nat, i <> 4%nat -> i <> 5%nat -> i <> 10%nat -> i <> 11%nat ->
     nth_error l1 i = nth_error l2 i) ->
  gerar_malha_12x12 l1 = gerar_malha_12x12 l2.
Proof.
  intros H1 H2 Hag.
  destruct (doze_pontos l1 H1)
    as (a0 & a1 & a2 & a3 & a4 & a5 & a6 & a7 & a8 & a9 & a10 & a11 & ->).
  destruct (doze_pontos l2 H2)
    as (b0 & b1 & b2 & b3 & b4 & b5 & b6 & b7 & b8 & b9 & b10 & b11 & ->).
  assert (E0 := Hag 0%nat). assert (E1 := Hag 1%nat).
  assert (E2 := Hag 2%nat). assert (E3 := Hag 3%nat).
  assert (E6 := Hag 6%nat). assert (E7 := Hag 7%nat).
  assert (E8 := Hag 8%nat). assert (E9 := Hag 9%nat).
  cbn in E0, E1, E2, E3, E6, E7, E8, E9.
  assert (a0 = b0) by (injection E0; [auto | lia ..]).
  assert (a1 = b1) by (injection E1; [auto | lia ..]).
  assert (a2 = b2) by (injection E2; [auto | lia ..]).
  assert (a3 = b3) by (injection E3; [auto | lia ..]).
  assert (a6 = b6) by (injection E6; [auto | lia ..]).
  assert (a7 = b7) by (injection E7; [auto | lia ..]).
  assert (a8 = b8) by (injection E8; [auto | lia ..]).
  assert (a9 = b9) by (injection E9; [auto | lia ..]).
  subst. rewrite !gerar_malha_12x12_eq. reflexivity.
Qed.

Lemma malha_ignora_handles_laterais_witness :
  gerar_malha_12x12 laco_a = gerar_malha_12x12 laco_b.
Proof.
  apply malha_ignora_handles_laterais; [reflexivity | reflexivity |].
  intros i H4 H5 H10 H11.
  do 12 (destruct i as [| i]; [first [reflexivity | congruence] |]).
  destruct i; reflexivity.
Defined.

Lemma peq_refl (a : QPointF) : a =p= a.
Proof. split; reflexivity. Qed.

Lemma peq_trans (a b c : QPointF) : a =p= b -> b =p= c -> a =p= c.
Proof.
  intros [Hx1 Hy1] [Hx2 Hy2]. split; [rewrite Hx1 | rewrite Hy1]; assumption.
Qed.

Lemma mistura_0 (a b : QPointF) : mistura (inject_Z 0 / 11) a b =p= a.
Proof. unfold mistura, peq, padd, pscale. cbn [px py]. split; field. Qed.

Lemma mistura_1 (a b : QPointF) : mistura (inject_Z 11 / 11) a b =p= b.
Proof. unfold mistura, peq, padd, pscale. cbn [px py]. split; field. Qed.

(** C3: for every 12-point loop [gerar_malha_12x12] returns a mesh whose
    row 0 is, column by column, the 12 samples of the top curve (points 0,
    1, 2, 3) at [t = k/11], and whose row 11 is the 12 samples of the
    bottom curve (points 6, 7, 8, 9) traversed backwards: the samples of
    the curve with its control points reversed, which are the samples of
    the bottom curve itself taken in reverse order. *)
Theorem linhas_extremas_da_malha (pontos : list QPointF) :
  List.length pontos = 12%nat ->
  exists m,
    gerar_malha_12x12 pontos = Ok m
    /\ List.length m = 12%nat
    /\ np_linspace01 12
       = map (fun k => inject_Z k / 11)%Q [0; 1; 2; 3; 4; 5; 6; 7; 8; 9; 10; 11]
    /\ Forall2 peq (nth 0 m [])
         (amostrar_curva
            (ponto pontos 0, ponto pontos 1, ponto pontos 2, ponto pontos 3) 12)
    /\ Forall2 peq (nth 11 m [])
         (amostrar_curva
            (reversed
               (ponto pontos 6, ponto pontos 7, ponto pontos 8, ponto pontos 9)) 12)
    /\ Forall2 peq (nth 11 m [])
         (rev (amostrar_curva
                 (ponto pontos 6, ponto pontos 7, ponto pontos 8, ponto pontos 9) 12)).
Proof.
  intro Hl.
  destruct (doze_pontos pontos Hl)
    as (a0 & a1 & a2 & a3 & a4 & a5 & a6 & a7 & a8 & a9 & a10 & a11 & ->).
  eexists. split; [apply gerar_malha_12x12_eq |].
  split; [reflexivity |]. split; [reflexivity |].
  unfold ponto. cbn [nth reversed].
  change (py_range 12) with [0; 1; 2; 3; 4; 5; 6; 7; 8; 9; 10; 11].
  cbn [map nth]. unfold amostrar_curva, np_linspace01.
  change (py_range 12) with [0; 1; 2; 3; 4; 5; 6; 7; 8; 9; 10; 11].
  split; [| split].
  - cbn [map]. repeat apply Forall2_cons; try apply Forall2_nil; apply mistura_0.
  - cbn [map]. repeat apply Forall2_cons; try apply Forall2_nil; apply mistura_1.
  - cbn [map rev app]. change (12 - 1) with 11.
    repeat apply Forall2_cons; try apply Forall2_nil;
      (eapply peq_trans; [apply mistura_1 |]);
      unfold ponto_bezier, peq, padd, pscale; cbn [px py]; split; field.
Qed.

Lemma linhas_extremas_da_malha_witness :
  exists m,
    gerar_malha_12x12 laco_a = Ok m
    /\ List.length m = 12%nat
    /\ np_linspace01 12
       = map (fun k => inject_Z k / 11)%Q [0; 1; 2; 3; 4; 5; 6; 7; 8; 9; 10; 11]
    /\ Forall2 peq (nth 0 m [])
         (amostrar_curva
            (ponto laco_a 0, ponto laco_a 1, ponto laco_a 2, ponto laco_a 3) 12)
    /\ Forall2 peq (nth 11 m [])
         (amostrar_curva
            (reversed
               (ponto laco_a 6, ponto laco_a 7, ponto laco_a 8, ponto laco_a 9)) 12)
    /\ Forall2 peq (nth 11 m [])
         (rev (amostrar_curva
                 (ponto laco_a 6, ponto laco_a 7, ponto laco_a 8, ponto laco_a 9) 12)).
Proof. apply (linhas_extremas_da_malha laco_a). reflexivity. Defined.

(** ** Corner and handle coupling *)

(** C6: in a 12-point loop, dragging a corner (an index divisible by 3) by
    [d = (dx, dy)] succeeds as soon as two nested calls are available,
    leaves the corner at its old position plus [d], leaves each of the two
    handles at indices [(idx + 1) mod 12] and [(idx - 1) mod 12] at its old
    position plus [d], and leaves the other nine points where they were. *)
Theorem mover_quina_arrasta_handles (pontos : estado) (idx : Z) (d : QPointF)
    (depth : nat) :
  List.length pontos = 12%nat -> 0 <= idx < 12 -> idx mod 3 = 0 ->
  (2 <= depth)%nat ->
  exists pontos',
    mover depth pontos idx d = Some pontos'
    /\ List.length pontos' = 12%nat
    /\ ponto pontos' (Z.to_nat idx) =p= padd (ponto pontos (Z.to_nat idx)) d
    /\ ponto pontos' (Z.to_nat ((idx + 1) mod 12))
       =p= padd (ponto pontos (Z.to_nat ((idx + 1) mod 12))) d
    /\ ponto pontos' (Z.to_nat ((idx - 1) mod 12))
       =p= padd (ponto pontos (Z.to_nat ((idx - 1) mod 12))) d
    /\ forall k, 0 <= k < 12 -> k <> idx ->
         k <> (idx + 1) mod 12 -> k <> (idx - 1) mod 12 ->
         ponto pontos' (Z.to_nat k) = ponto pontos (Z.to_nat k).
Proof.
  intros Hl Hidx Hmod Hdepth.
  destruct (doze_pontos pontos Hl)
    as (a0 & a1 & a2 & a3 & a4 & a5 & a6 & a7 & a8 & a9 & a10 & a11 & ->).
  destruct depth as [| [| n]]; try lia.
  assert (Hcases : idx = 0 \/ idx = 3 \/ idx = 6 \/ idx = 9).
  { assert (idx = 3 * (idx / 3)) by (pose proof (Z.div_mod idx 3); lia). lia. }
  assert (Hdelta : forall h c : QPointF, padd h (psub (padd c d) c) =p= padd h d).
  { intros h c. unfold peq, padd, psub. cbn [px py]. split; ring. }
  destruct Hcases as [-> | [-> | [-> | ->]]];
    (eexists; split; [reflexivity |]; split; [reflexivity |];
     unfold ponto;
     split; [apply peq_refl |];
     split; [apply Hdelta |];
     split; [apply Hdelta |];
     intros k Hk Hne H1 H2;
     assert (Hk12 : k = 0 \/ k = 1 \/ k = 2 \/ k = 3 \/ k = 4 \/ k = 5 \/ k = 6
                    \/ k = 7 \/ k = 8 \/ k = 9 \/ k = 10 \/ k = 11) by lia;
     repeat (destruct Hk12 as [-> | Hk12]); subst;
     first [reflexivity | exfalso; apply Hne; reflexivity
           | exfalso; apply H1; reflexivity | exfalso; apply H2; reflexivity]).
Qed.

Lemma mover_quina_arrasta_handles_witness :
  exists pontos',
    mover 2 laco_a 0 (mkPoint 5 (-3)) = Some pontos'
    /\ List.length pontos' = 12%nat
    /\ ponto pontos' (Z.to_nat 0) =p= padd (ponto laco_a (Z.to_nat 0)) (mkPoint 5 (-3))
    /\ ponto pontos' (Z.to_nat ((0 + 1) mod 12))
       =p= padd (ponto laco_a (Z.to_nat ((0 + 1) mod 12))) (mkPoint 5 (-3))
    /\ ponto pontos' (Z.to_nat ((0 - 1) mod 12))
       =p= padd (ponto laco_a (Z.to_nat ((0 - 1) mod 12))) (mkPoint 5 (-3))
    /\ forall k, 0 <= k < 12 -> k <> 0 ->
         k <> (0 + 1) mod 12 -> k <> (0 - 1) mod 12 ->
         ponto pontos' (Z.to_nat k) = ponto laco_a (Z.to_nat k).
Proof.
  apply (mover_quina_arrasta_handles laco_a 0 (mkPoint 5 (-3)) 2);
    [reflexivity | lia | reflexivity | lia].
Defined.

(** ** The identity field of the 100x100 image *)

Lemma inject_Z_nao_zero (w : Z) : w <> 0 -> ~ (inject_Z w == 0)%Q.
Proof. intros Hw H0. apply Hw. unfold Qeq in H0. simpl in H0. lia. Qed.

(** The mesh of the straight loop is the regular grid. *)
Lemma celula_reta (w h j i : Z) :
  let W := inject_Z w in
  let H := inject_Z h in
  mistura (inject_Z j / 11)
    (ponto_bezier (mkPoint 0 0) (mkPoint (W / 3) 0) (mkPoint (2 * W / 3) 0)
                  (mkPoint W 0) (inject_Z i / inject_Z (12 - 1)))
    (ponto_bezier (mkPoint 0 H) (mkPoint (W / 3) H) (mkPoint (2 * W / 3) H)
                  (mkPoint W H) (inject_Z i / inject_Z (12 - 1)))
  =p= mkPoint (W / 11 * inject_Z i) (H / 11 * inject_Z j).
Proof.
  intros W H. change (12 - 1) with 11.
  unfold mistura, ponto_bezier, peq, padd, pscale. cbn [px py]. split; field.
Qed.

Lemma bilinear_grade (a b i0 j0 fx fy : Q) :
  par_eq (bilinear (a * i0, b * j0)%Q (a * (i0 + 1), b * j0)%Q
                   (a * i0, b * (j0 + 1))%Q (a * (i0 + 1), b * (j0 + 1))%Q fx fy)
         (a * (i0 + fx), b * (j0 + fy))%Q.
Proof. unfold par_eq, bilinear. cbn [fst snd]. split; ring. Qed.

Lemma par_eq_trans (p q r : Q * Q) : par_eq p q -> par_eq q r -> par_eq p r.
Proof.
  intros [Hx1 Hy1] [Hx2 Hy2]. split; [rewrite Hx1 | rewrite Hy1]; assumption.
Qed.

Section LacoReto.

Variables w h : Z.
Hypothesis Hw : 1 <= w.
Hypothesis Hh : 1 <= h.

Lemma malha_laco_reto : gerar_malha_12x12 (laco_reto w h) = Ok (grade_reta w h).
Proof. unfold laco_reto. apply gerar_malha_12x12_eq. Qed.

Lemma grade_forma : malha_forma (para_tuplas (grade_reta w h)) 12 12.
Proof.
  unfold malha_forma, para_tuplas, grade_reta. split.
  - rewrite !length_map. reflexivity.
  - apply Forall_forall. intros linha Hin.
    apply in_map_iff in Hin. destruct Hin as [l [<- Hl]].
    apply in_map_iff in Hl. destruct Hl as [j [<- _]].
    rewrite !length_map. reflexivity.
Qed.

Lemma ponto_malha_grade (j i : Z) :
  0 <= j < 12 -> 0 <= i < 12 ->
  exists p, ponto_malha (para_tuplas (grade_reta w h)) w h w h j i = Ok p
    /\ par_eq p (inject_Z w / 11 * inject_Z i, inject_Z h / 11 * inject_Z j)%Q.
Proof.
  intros Hj Hi. unfold ponto_malha, para_tuplas, grade_reta.
  rewrite map_map, py_getitem_map_range by exact Hj. cbn [bind].
  rewrite map_map, py_getitem_map_range by exact Hi. cbn [bind].
  destruct (celula_reta w h j i) as [Hx Hy]. cbn [px py] in Hx, Hy.
  destruct (reescala_unitaria
              (px (mistura (inject_Z j / 11)
                 (ponto_bezier (mkPoint 0 0) (mkPoint (inject_Z w / 3) 0)
                    (mkPoint (2 * inject_Z w / 3) 0) (mkPoint (inject_Z w) 0)
                    (inject_Z i / inject_Z (12 - 1)))
                 (ponto_bezier (mkPoint 0 (inject_Z h))
                    (mkPoint (inject_Z w / 3) (inject_Z h))
                    (mkPoint (2 * inject_Z w / 3) (inject_Z h))
                    (mkPoint (inject_Z w) (inject_Z h))
                    (inject_Z i / inject_Z (12 - 1))))) w) as [x [-> Ex]]; [lia |].
  cbn [bind].
  destruct (reescala_unitaria
              (py (mistura (inject_Z j / 11)
                 (ponto_bezier (mkPoint 0 0) (mkPoint (inject_Z w / 3) 0)
                    (mkPoint (2 * inject_Z w / 3) 0) (mkPoint (inject_Z w) 0)
                    (inject_Z i / inject_Z (12 - 1)))
                 (ponto_bezier (mkPoint 0 (inject_Z h))
                    (mkPoint (inject_Z w / 3) (inject_Z h))
                    (mkPoint (2 * inject_Z w / 3) (inject_Z h))
                    (mkPoint (inject_Z w) (inject_Z h))
                    (inject_Z i / inject_Z (12 - 1))))) h) as [y [-> Ey]]; [lia |].
  cbn [bind]. eexists. split; [reflexivity |].
  split; cbn [fst snd]; [rewrite Ex; exact Hx | rewrite Ey; exact Hy].
Qed.

Lemma pixel_grade (u v : Z) :
  0 <= u < w -> 0 <= v < h ->
  exists q, pixel (para_tuplas (grade_reta w h)) w h w h 12 12 u v = Ok q
    /\ par_eq q (inject_Z u, inject_Z v).
Proof.
  intros Hu Hv. unfold pixel.
  destruct (indice_eixo_limites u 12 w) as [ei (-> & Hfi & Hti & Hci & _ & Hei)];
    try lia.
  destruct (indice_eixo_limites v 12 h) as [ej (-> & Hfj & Htj & Hcj & _ & Hej)];
    try lia.
  cbn [bind]. rewrite Hci in *. rewrite Hcj in *.
  destruct (ponto_malha_grade (e_trunc ej) (e_trunc ei)) as [p00 [-> E00]];
    try lia.
  destruct (ponto_malha_grade (e_trunc ej) (e_trunc ei + 1)) as [p10 [-> E10]];
    try lia.
  destruct (ponto_malha_grade (e_trunc ej + 1) (e_trunc ei)) as [p01 [-> E01]];
    try lia.
  destruct (ponto_malha_grade (e_trunc ej + 1) (e_trunc ei + 1)) as [p11 [-> E11]];
    try lia.
  cbn [bind]. eexists. split; [reflexivity |].
  rewrite (inject_Z_plus (e_trunc ei) 1) in E10, E11.
  rewrite (inject_Z_plus (e_trunc ej) 1) in E01, E11.
  change (inject_Z 1) with 1%Q in *. change (12 - 1) with 11 in Hfi, Hfj.
  eapply par_eq_trans.
  { apply bilinear_par_eq; [exact E00 | exact E10 | exact E01 | exact E11]. }
  eapply par_eq_trans; [apply bilinear_grade |].
  unfold par_eq. cbn [fst snd]. rewrite Hei, Hej, Hfi, Hfj.
  rewrite !inject_Z_mult.
  split; field; apply inject_Z_nao_zero; lia.
Qed.

End LacoReto.

(** C2: for the 100x100 image shown at its own size, with the loop on the
    image corners and the handles at 1/3 and 2/3 of each straight edge,
    [gerar_malha_12x12] followed by [gerar_mapas_remap] returns two
    100x100 maps with [map_x[v][u] == u] and [map_y[v][u] == v] in every
    cell. *)
Theorem campo_identidade_100 :
  exists map_x map_y,
    campo visor_100 = Ok (map_x, map_y)
    /\ shape map_x 100 100 /\ shape map_y 100 100
    /\ forall u v, 0 <= u < 100 -> 0 <= v < 100 ->
         (array_get map_x v u == inject_Z u
          /\ array_get map_y v u == inject_Z v)%Q.
Proof.
  unfold campo, visor_100.
  cbn [quad_pontos nova_W_pyqt nova_H_pyqt orig_W_cv orig_H_cv].
  rewrite malha_laco_reto. cbn [bind].
  destruct (gerar_mapas_remap_ok (para_tuplas (grade_reta 100 100))
              100 100 100 100 12 12)
    as [mx [my (Hrun & Hsx & Hsy & Hcells)]];
    try lia; [apply grade_forma |].
  exists mx, my.
  split; [exact Hrun |]. split; [exact Hsx |]. split; [exact Hsy |].
  intros u v Hu Hv.
  destruct (pixel_grade 100 100) with (u := u) (v := v) as [q [Hq [Ex Ey]]];
    try lia.
  rewrite (Hcells u v Hu Hv) in Hq. injection Hq as <-.
  split; [exact Ex | exact Ey].
Qed.

(** ** The name of the saved file *)

Open Scope string_scope.

Lemma substring_tudo (p : string) : String.substring 0 (String.length p) p = p.
Proof. induction p as [| a r IH]; simpl; [reflexivity | rewrite IH; reflexivity]. Qed.

Lemma ate_a_partir (p : string) (k : nat) :
  (k <= String.length p)%nat ->
  String.substring 0 k p ++ String.substring k (String.length p - k) p = p.
Proof.
  revert k. induction p as [| a r IH]; intros [| k] Hk; simpl in *; try lia.
  - reflexivity.
  - rewrite substring_tudo. reflexivity.
  - rewrite IH by lia. reflexivity.
Qed.

(** [rfind] returns -1 or the index of the last occurrence. *)
Lemma rfind_aux_spec (c : ascii) (p : string) (i found : Z) :
  found < i ->
  let r := rfind_aux c p i found in
  (r = found \/ (i <= r < i + Z.of_nat (String.length p)
                 /\ String.get (Z.to_nat (r - i)) p = Some c))
  /\ forall k : nat, r - i < Z.of_nat k -> String.get k p <> Some c.
Proof.
  revert i found. induction p as [| a s IH]; intros i found Hlt; cbn zeta.
  - simpl. split; [left; reflexivity | intros k _; discriminate].
  - cbn [rfind_aux String.length].
    destruct (Ascii.eqb_spec a c) as [-> | Hac].
    + destruct (IH (i + 1) i) as [[Hr | [Hr Hg]] Hlast]; [lia | |].
      * rewrite Hr. split.
        -- right. split; [lia |]. replace (i - i) with 0 by lia. reflexivity.
        -- intros [| k] Hk; [lia |]. simpl. apply Hlast. lia.
      * split.
        -- right. split; [lia |].
           replace (Z.to_nat (rfind_aux c s (i + 1) i - i))
             with (S (Z.to_nat (rfind_aux c s (i + 1) i - (i + 1)))) by lia.
           exact Hg.
        -- intros [| k] Hk; [lia |]. simpl. apply Hlast. lia.
    + destruct (IH (i + 1) found) as [[Hr | [Hr Hg]] Hlast]; [lia | |].
      * rewrite Hr. split; [left; reflexivity |].
        intros [| k] Hk; simpl; [congruence |]. apply Hlast. lia.
      * split.
        -- right. split; [lia |].
           replace (Z.to_nat (rfind_aux c s (i + 1) found - i))
             with (S (Z.to_nat (rfind_aux c s (i + 1) found - (i + 1)))) by lia.
           exact Hg.
        -- intros [| k] Hk; simpl; [congruence |]. apply Hlast. lia.
Qed.

Lemma rfind_limites (c : ascii) (p : string) :
  -1 <= rfind c p < Z.of_nat (String.length p)
  /\ forall k : nat, rfind c p < Z.of_nat k -> String.get k p <> Some c.
Proof.
  unfold rfind. destruct (rfind_aux_spec c p 0 (-1)) as [[Hr | [Hr _]] Hlast]; [lia | |].
  - rewrite Hr. split; [lia |]. intros k Hk. apply Hlast. lia.
  - split; [lia |]. intros k Hk. apply Hlast. lia.
Qed.

(** [splitext] cuts the path in two, and the extension holds no
    separator: the base keeps the whole directory part. *)
Lemma splitext_spec (p base ext : string) :
  splitext p = (base, ext) ->
  base ++ ext = p /\ forall k : nat, String.get k ext <> Some "/"%char.
Proof.
  unfold splitext.
  destruct (rfind_limites "/" p) as [Hs Hslast].
  destruct (rfind_limites "." p) as [Hd _].
  destruct ((rfind "/" p <? rfind "." p)%Z
            && tem_nome p (rfind "/" p + 1)
                 (Z.to_nat (rfind "." p - (rfind "/" p + 1)))) eqn:Hc.
  - apply andb_true_iff in Hc. destruct Hc as [Hlt _]. apply Z.ltb_lt in Hlt.
    intros [= <- <-]. unfold ate, a_partir. split.
    + apply ate_a_partir. lia.
    + intros k Hk.
      destruct (Nat.lt_ge_cases k (String.length p - Z.to_nat (rfind "." p)))
        as [Hin | Hout].
      * rewrite substring_correct1 in Hk by exact Hin.
        apply (Hslast (k + Z.to_nat (rfind "." p))%nat); [lia | exact Hk].
      * rewrite substring_correct2 in Hk by exact Hout. discriminate.
  - intros [= <- <-]. split.
    + clear. induction p as [| a r IH]; simpl; [reflexivity | rewrite IH; reflexivity].
    + intros [| k]; discriminate.
Qed.

(** C9 (as the code has it): whenever the commit action writes a file, its
    name is the source path without its extension, then the suffix
    [_corrigida], then the extension; the part before the suffix is the
    source path up to its extension, directories included. *)
Theorem arquivo_salvo_corrigida (cv : cv2) (self : ImageViewer)
    (eventos : list evento) (nome : string) :
  processar_remapeamento cv self = Ok eventos ->
  In (Arquivo nome) eventos ->
  exists base ext,
    splitext (image_path self) = (base, ext)
    /\ nome = base ++ "_corrigida" ++ ext
    /\ base ++ ext = image_path self
    /\ forall k : nat, String.get k ext <> Some "/"%char.
Proof.
  unfold processar_remapeamento. intros Hrun Hin.
  destruct (gerar_malha_12x12 (quad_pontos self)) as [m | e]; [| discriminate Hrun].
  cbn [bind] in Hrun.
  destruct (gerar_mapas_remap _ _ _ _ _ _ _) as [mapas | e]; [| discriminate Hrun].
  cbn [bind] in Hrun.
  destruct (splitext (image_path self)) as [base ext] eqn:Hsplit.
  exists base, ext.
  destruct (splitext_spec _ _ _ Hsplit) as [Hcat Hsep].
  assert (Hnome : nome = base ++ "_corrigida" ++ ext).
  { unfold nome_salvar in Hrun. rewrite Hsplit in Hrun.
    destruct (negb (imread cv (image_path self))).
    - injection Hrun as <-. cbn in Hin.
      destruct Hin as [H | [H | []]]; discriminate H.
    - destruct (imwrite cv (base ++ "_corrigida" ++ ext));
        injection Hrun as <-; cbn in Hin;
        repeat (destruct Hin as [Hin | Hin]; try discriminate Hin);
        try contradiction.
      injection Hin as <-. reflexivity. }
  auto.
Qed.

Lemma arquivo_salvo_corrigida_witness :
  exists base ext,
    splitext "fotos/pagina.png" = (base, ext)
    /\ "fotos/pagina_corrigida.png" = base ++ "_corrigida" ++ ext
    /\ base ++ ext = "fotos/pagina.png"
    /\ forall k : nat, String.get k ext <> Some "/"%char.
Proof.
  apply (arquivo_salvo_corrigida cv_sem_falhas visor_pagina eventos_pagina
           "fotos/pagina_corrigida.png").
  - vm_compute. reflexivity.
  - simpl. right. right. right. left. reflexivity.
Defined.

(** C9, counterexample: committing [fotos/pagina.png] writes
    [fotos/pagina_corrigida.png], which is not the name
    [fotos/pagina_corrected.png] that the [_corrected] convention gives. *)
Lemma arquivo_salvo_nao_corrected :
  processar_remapeamento cv_sem_falhas visor_pagina = Ok eventos_pagina
  /\ In (Arquivo "fotos/pagina_corrigida.png") eventos_pagina
  /\ nome_spec (image_path visor_pagina) = "fotos/pagina_corrected.png"
  /\ ~ In (Arquivo (nome_spec (image_path visor_pagina))) eventos_pagina.
Proof.
  split; [vm_compute; reflexivity |].
  split; [simpl; auto |].
  split; [vm_compute; reflexivity |].
  intro Hin. vm_compute in Hin.
  repeat (destruct Hin as [Hin | Hin]; try discriminate Hin). exact Hin.
Qed.

Close Scope string_scope.

(* ================================================================== *)
(** * Further properties of the code *)

(** ** The curve evaluator *)

(** X1: the curve starts at its first control point and ends at its
    last one. *)
Theorem ponto_bezier_extremos (p0 p1 p2 p3 : QPointF) :
  ponto_bezier p0 p1 p2 p3 0 =p= p0 /\ ponto_bezier p0 p1 p2 p3 1 =p= p3.
Proof.
  unfold ponto_bezier, peq, padd, pscale. cbn [px py].
  repeat split; ring.
Qed.

(** X2: evaluating the curve with its control points in reverse order at
    [t] gives the point of the curve at [1 - t]. *)
Theorem ponto_bezier_invertido (p0 p1 p2 p3 : QPointF) (t : Q) :
  ponto_bezier p3 p2 p1 p0 t =p= ponto_bezier p0 p1 p2 p3 (1 - t).
Proof.
  unfold ponto_bezier, peq, padd, pscale. cbn [px py]. split; ring.
Qed.

(** X3: moving the four control points by [d] moves every point of the
    curve by [d]. *)
Theorem ponto_bezier_translacao (p0 p1 p2 p3 d : QPointF) (t : Q) :
  ponto_bezier (padd p0 d) (padd p1 d) (padd p2 d) (padd p3 d) t
  =p= padd (ponto_bezier p0 p1 p2 p3 t) d.
Proof.
  unfold ponto_bezier, peq, padd, pscale. cbn [px py]. split; ring.
Qed.

(** ** The mesh builder on loops of any size *)

Lemma py_getitem_nth {A : Type} (d : A) (l : list A) (i : Z) :
  0 <= i < Z.of_nat (List.length l) ->
  py_getitem l i = Ok (nth (Z.to_nat i) l d).
Proof.
  intro Hi. unfold py_getitem.
  destruct (Z.ltb_spec i 0); [lia |].
  destruct (Z.ltb_spec i 0); [lia |].
  destruct (Z.leb_spec (Z.of_nat (List.length l)) i); [lia |]. cbn [orb].
  rewrite (nth_error_nth' l d) by lia. reflexivity.
Qed.

Lemma py_getitem_fora {A : Type} (l : list A) (i : Z) :
  Z.of_nat (List.length l) <= i -> py_getitem l i = Raise IndexError.
Proof.
  intro Hi. unfold py_getitem.
  destruct (Z.ltb_spec i 0); [lia |].
  destruct (Z.ltb_spec i 0); [lia |].
  destruct (Z.leb_spec (Z.of_nat (List.length l)) i); [| lia].
  reflexivity.
Qed.

Lemma nth_map_range {A : Type} (g : Z -> A) (d : A) (n k : Z) :
  0 <= k < n -> nth (Z.to_nat k) (map g (py_range n)) d = g k.
Proof.
  intro Hk.
  assert (H : py_getitem (map g (py_range n)) k = Ok (g k))
    by (apply py_getitem_map_range; exact Hk).
  rewrite (py_getitem_nth d) in H.
  - injection H as H. exact H.
  - unfold py_range. rewrite !length_map, length_seq. lia.
Qed.

(** X4: on a loop with fewer than 12 points the mesh builder raises
    [IndexError]: no mesh is produced from a short loop. *)
Theorem gerar_malha_12x12_laco_curto (pontos : list QPointF) :
  (List.length pontos < 12)%nat ->
  gerar_malha_12x12 pontos = Raise IndexError.
Proof.
  intro Hl.
  do 12 (destruct pontos as [| ? pontos]; [reflexivity |]).
  cbn [List.length] in Hl. lia.
Qed.

Lemma gerar_malha_12x12_laco_curto_witness :
  gerar_malha_12x12 [mkPoint 0 0; mkPoint 1 0; mkPoint 2 0; mkPoint 3 0;
                     mkPoint 3 1; mkPoint 3 2; mkPoint 3 3; mkPoint 2 3;
                     mkPoint 1 3; mkPoint 0 3; mkPoint 0 2]
  = Raise IndexError.
Proof. apply gerar_malha_12x12_laco_curto. cbn [List.length]. lia. Defined.

Lemma py_getitem_prefixo {A : Type} (l resto : list A) (i : Z) :
  0 <= i < Z.of_nat (List.length l) ->
  py_getitem (l ++ resto) i = py_getitem l i.
Proof.
  intro Hi. unfold py_getitem. rewrite length_app.
  destruct (Z.ltb_spec i 0); [lia |].
  destruct (Z.ltb_spec i 0); [lia |].
  destruct (Z.leb_spec (Z.of_nat (List.length l + List.length resto)) i); [lia |].
  destruct (Z.leb_spec (Z.of_nat (List.length l)) i); [lia |].
  cbn [orb]. rewrite nth_error_app1 by lia. reflexivity.
Qed.

Lemma curvas_do_laco_prefixo (l resto : list QPointF) :
  List.length l = 12%nat -> curvas_do_laco (l ++ resto) = curvas_do_laco l.
Proof.
  intro Hl. unfold curvas_do_laco, range_0_12_3. cbn [mapM].
  rewrite !(py_getitem_prefixo l resto) by (rewrite Hl; cbn; lia).
  reflexivity.
Qed.

Lemma gerar_malha_12x12_prefixo (l resto : list QPointF) :
  List.length l = 12%nat ->
  gerar_malha_12x12 (l ++ resto) = gerar_malha_12x12 l.
Proof.
  intro Hl. unfold gerar_malha_12x12.
  rewrite curvas_do_laco_prefixo by exact Hl. reflexivity.
Qed.

Lemma gerar_malha_12x12_forma (pontos : list QPointF) :
  (12 <= List.length pontos)%nat ->
  exists m,
    gerar_malha_12x12 pontos = Ok m
    /\ List.length m = 12%nat
    /\ Forall (fun linha => List.length linha = 12%nat) m.
Proof.
  intro Hl.
  assert (Hf : List.length (firstn 12 pontos) = 12%nat)
    by (rewrite length_firstn; lia).
  rewrite <- (firstn_skipn 12 pontos), gerar_malha_12x12_prefixo by exact Hf.
  destruct (doze_pontos _ Hf)
    as (a0 & a1 & a2 & a3 & a4 & a5 & a6 & a7 & a8 & a9 & a10 & a11 & ->).
  rewrite gerar_malha_12x12_eq. eexists. split; [reflexivity |]. split.
  - rewrite length_map. reflexivity.
  - apply Forall_forall. intros linha Hin.
    apply in_map_iff in Hin. destruct Hin as [j [<- _]].
    rewrite length_map. reflexivity.
Qed.

(** X5: on a loop with 12 points or more the mesh builder returns a mesh
    of 12 rows of 12 points, and the points after the twelfth play no
    part: the mesh is that of the first 12 points. *)
Theorem gerar_malha_12x12_pontos_a_mais (pontos : list QPointF) :
  (12 <= List.length pontos)%nat ->
  exists m,
    gerar_malha_12x12 pontos = Ok m
    /\ gerar_malha_12x12 (firstn 12 pontos) = Ok m
    /\ List.length m = 12%nat
    /\ Forall (fun linha => List.length linha = 12%nat) m.
Proof.
  intro Hl.
  assert (Hf : List.length (firstn 12 pontos) = 12%nat)
    by (rewrite length_firstn; lia).
  assert (Heq : gerar_malha_12x12 pontos = gerar_malha_12x12 (firstn 12 pontos)).
  { rewrite <- (firstn_skipn 12 pontos) at 1.
    apply gerar_malha_12x12_prefixo. exact Hf. }
  destruct (gerar_malha_12x12_forma pontos Hl) as [m (Hm & Hlen & Hrows)].
  exists m. split; [exact Hm |]. split; [| split; assumption].
  rewrite <- Heq. exact Hm.
Qed.

Lemma gerar_malha_12x12_pontos_a_mais_witness :
  exists m,
    gerar_malha_12x12 (laco_a ++ [mkPoint 50 50]) = Ok m
    /\ gerar_malha_12x12 (firstn 12 (laco_a ++ [mkPoint 50 50])) = Ok m
    /\ List.length m = 12%nat
    /\ Forall (fun linha => List.length linha = 12%nat) m.
Proof.
  apply (gerar_malha_12x12_pontos_a_mais (laco_a ++ [mkPoint 50 50])).
  cbn [laco_a app List.length]. lia.
Defined.

Lemma Ok_inj {A : Type} (a b : A) : Ok a = Ok b -> a = b.
Proof. intro H. injection H as H. exact H. Qed.

Lemma celula_malha_12 (a0 a1 a2 a3 a4 a5 a6 a7 a8 a9 a10 a11 : QPointF)
    (m : malha) (j i : Z) :
  gerar_malha_12x12 [a0; a1; a2; a3; a4; a5; a6; a7; a8; a9; a10; a11] = Ok m ->
  0 <= j < 12 -> 0 <= i < 12 ->
  celula_malha m j i
  = mistura (inject_Z j / 11)
      (ponto_bezier a0 a1 a2 a3 (inject_Z i / 11))
      (ponto_bezier a9 a8 a7 a6 (inject_Z i / 11)).
Proof.
  intros Hm Hj Hi. rewrite gerar_malha_12x12_eq in Hm.
  apply Ok_inj in Hm. subst m. change (12 - 1) with 11.
  unfold celula_malha.
  rewrite (nth_map_range (A := list QPointF) _ [] 12 j Hj).
  rewrite (nth_map_range (A := QPointF) _ (mkPoint 0 0) 12 i Hi).
  reflexivity.
Qed.

(** X6: the first and last columns of the mesh are the straight segments
    joining the corners of the loop, [pontos[0]] to [pontos[9]] on the left
    and [pontos[3]] to [pontos[6]] on the right, whatever the shape of the
    left and right curves; in particular the four corners of the mesh are
    the four corners of the loop. *)
Theorem colunas_laterais_retas (pontos : list QPointF) (j : Z) :
  List.length pontos = 12%nat -> 0 <= j < 12 ->
  exists m,
    gerar_malha_12x12 pontos = Ok m
    /\ celula_malha m j 0
       =p= mistura (inject_Z j / 11) (ponto pontos 0) (ponto pontos 9)
    /\ celula_malha m j 11
       =p= mistura (inject_Z j / 11) (ponto pontos 3) (ponto pontos 6)
    /\ celula_malha m 0 0 =p= ponto pontos 0
    /\ celula_malha m 0 11 =p= ponto pontos 3
    /\ celula_malha m 11 0 =p= ponto pontos 9
    /\ celula_malha m 11 11 =p= ponto pontos 6.
Proof.
  intros Hl Hj.
  destruct (doze_pontos pontos Hl)
    as (a0 & a1 & a2 & a3 & a4 & a5 & a6 & a7 & a8 & a9 & a10 & a11 & ->).
  destruct (gerar_malha_12x12 [a0; a1; a2; a3; a4; a5; a6; a7; a8; a9; a10; a11])
    as [m | e] eqn:Hm; [| rewrite gerar_malha_12x12_eq in Hm; discriminate Hm].
  exists m. split; [reflexivity |].
  rewrite !(celula_malha_12 _ _ _ _ _ _ _ _ _ _ _ _ m _ _ Hm) by lia.
  unfold ponto. cbn [nth].
  unfold mistura, ponto_bezier, peq, padd, pscale. cbn [px py].
  repeat split; field.
Qed.

Lemma colunas_laterais_retas_witness :
  exists m,
    gerar_malha_12x12 laco_a = Ok m
    /\ celula_malha m 4 0
       =p= mistura (inject_Z 4 / 11) (ponto laco_a 0) (ponto laco_a 9)
    /\ celula_malha m 4 11
       =p= mistura (inject_Z 4 / 11) (ponto laco_a 3) (ponto laco_a 6)
    /\ celula_malha m 0 0 =p= ponto laco_a 0
    /\ celula_malha m 0 11 =p= ponto laco_a 3
    /\ celula_malha m 11 0 =p= ponto laco_a 9
    /\ celula_malha m 11 11 =p= ponto laco_a 6.
Proof. apply (colunas_laterais_retas laco_a 4); [reflexivity | lia]. Defined.

(** X7: moving the 12 control points by the same [d] moves every point
    of the mesh by [d]. *)
Theorem malha_translacao (pontos : list QPointF) (d : QPointF) (j i : Z) :
  List.length pontos = 12%nat -> 0 <= j < 12 -> 0 <= i < 12 ->
  exists m m',
    gerar_malha_12x12 pontos = Ok m
    /\ gerar_malha_12x12 (transladar d pontos) = Ok m'
    /\ celula_malha m' j i =p= padd (celula_malha m j i) d.
Proof.
  intros Hl Hj Hi.
  destruct (doze_pontos pontos Hl)
    as (a0 & a1 & a2 & a3 & a4 & a5 & a6 & a7 & a8 & a9 & a10 & a11 & ->).
  unfold transladar. cbn [map].
  destruct (gerar_malha_12x12 [a0; a1; a2; a3; a4; a5; a6; a7; a8; a9; a10; a11])
    as [m | e] eqn:Hm; [| rewrite gerar_malha_12x12_eq in Hm; discriminate Hm].
  destruct (gerar_malha_12x12
              [padd a0 d; padd a1 d; padd a2 d; padd a3 d; padd a4 d; padd a5 d;
               padd a6 d; padd a7 d; padd a8 d; padd a9 d; padd a10 d; padd a11 d])
    as [m' | e] eqn:Hm'; [| rewrite gerar_malha_12x12_eq in Hm'; discriminate Hm'].
  exists m, m'. split; [reflexivity |]. split; [reflexivity |].
  rewrite (celula_malha_12 _ _ _ _ _ _ _ _ _ _ _ _ m _ _ Hm) by lia.
  rewrite (celula_malha_12 _ _ _ _ _ _ _ _ _ _ _ _ m' _ _ Hm') by lia.
  unfold mistura, ponto_bezier, peq, padd, pscale. cbn [px py].
  split; field.
Qed.

Lemma malha_translacao_witness :
  exists m m',
    gerar_malha_12x12 laco_a = Ok m
    /\ gerar_malha_12x12 (transladar (mkPoint 7 (-2)) laco_a) = Ok m'
    /\ celula_malha m' 5 8 =p= padd (celula_malha m 5 8) (mkPoint 7 (-2)).
Proof.
  apply (malha_translacao laco_a (mkPoint 7 (-2)) 5 8); [reflexivity | lia | lia].
Defined.

(** ** The sampled boundary *)

(** X8: for a 12-point loop [amostrar_bordas] returns four lists of 12
    samples that form a closed chain: each list starts at a corner of the
    loop and ends at the next corner, where the next list starts, and the
    last list ends where the first one starts. *)
Theorem amostrar_bordas_cadeia_fechada (pontos : list QPointF) :
  List.length pontos = 12%nat ->
  exists b0 b1 b2 b3,
    amostrar_bordas pontos = Ok [b0; b1; b2; b3]
    /\ List.length b0 = 12%nat /\ List.length b1 = 12%nat
    /\ List.length b2 = 12%nat /\ List.length b3 = 12%nat
    /\ nth 0 b0 (mkPoint 0 0) =p= ponto pontos 0
    /\ nth 11 b0 (mkPoint 0 0) =p= ponto pontos 3
    /\ nth 0 b1 (mkPoint 0 0) =p= ponto pontos 3
    /\ nth 11 b1 (mkPoint 0 0) =p= ponto pontos 6
    /\ nth 0 b2 (mkPoint 0 0) =p= ponto pontos 6
    /\ nth 11 b2 (mkPoint 0 0) =p= ponto pontos 9
    /\ nth 0 b3 (mkPoint 0 0) =p= ponto pontos 9
    /\ nth 11 b3 (mkPoint 0 0) =p= ponto pontos 0.
Proof.
  intro Hl.
  destruct (doze_pontos pontos Hl)
    as (a0 & a1 & a2 & a3 & a4 & a5 & a6 & a7 & a8 & a9 & a10 & a11 & ->).
  do 4 eexists. split; [reflexivity |].
  unfold np_linspace01.
  change (py_range 12) with [0; 1; 2; 3; 4; 5; 6; 7; 8; 9; 10; 11].
  change (12 - 1) with 11.
  cbn [map nth List.length]. unfold ponto. cbn [nth].
  do 4 (split; [reflexivity |]).
  unfold ponto_bezier, peq, padd, pscale. cbn [px py].
  repeat split; field.
Qed.

Lemma amostrar_bordas_cadeia_fechada_witness :
  exists b0 b1 b2 b3,
    amostrar_bordas laco_a = Ok [b0; b1; b2; b3]
    /\ List.length b0 = 12%nat /\ List.length b1 = 12%nat
    /\ List.length b2 = 12%nat /\ List.length b3 = 12%nat
    /\ nth 0 b0 (mkPoint 0 0) =p= ponto laco_a 0
    /\ nth 11 b0 (mkPoint 0 0) =p= ponto laco_a 3
    /\ nth 0 b1 (mkPoint 0 0) =p= ponto laco_a 3
    /\ nth 11 b1 (mkPoint 0 0) =p= ponto laco_a 6
    /\ nth 0 b2 (mkPoint 0 0) =p= ponto laco_a 6
    /\ nth 11 b2 (mkPoint 0 0) =p= ponto laco_a 9
    /\ nth 0 b3 (mkPoint 0 0) =p= ponto laco_a 9
    /\ nth 11 b3 (mkPoint 0 0) =p= ponto laco_a 0.
Proof. apply (amostrar_bordas_cadeia_fechada laco_a). reflexivity. Defined.

(** ** The editor *)

(** X9: dragging an item that is not a corner, or any item of a loop
    that does not have exactly 12 points, moves that item alone: it ends
    at its old position plus [d] and every other point stays where it
    was. *)
Theorem mover_sem_acoplamento (pontos : estado) (idx : Z) (d : QPointF)
    (depth : nat) :
  0 <= idx < Z.of_nat (List.length pontos) ->
  idx mod 3 <> 0 \/ List.length pontos <> 12%nat ->
  (1 <= depth)%nat ->
  exists pontos',
    mover depth pontos idx d = Some pontos'
    /\ List.length pontos' = List.length pontos
    /\ ponto pontos' (Z.to_nat idx) = padd (ponto pontos (Z.to_nat idx)) d
    /\ forall k : nat, k <> Z.to_nat idx -> ponto pontos' k = ponto pontos k.
Proof.
  intros Hidx Hnc Hdepth. destruct depth as [| n]; [lia |].
  unfold mover, pos. rewrite (py_getitem_nth (mkPoint 0 0)) by exact Hidx.
  cbn [obind setPos].
  assert (Hg : (idx mod 3 =? 0) && (Z.of_nat (List.length pontos) =? 12) = false).
  { apply andb_false_iff. destruct Hnc as [Hm | Hlen].
    - left. apply Z.eqb_neq. exact Hm.
    - right. apply Z.eqb_neq. lia. }
  rewrite Hg. cbn [obind]. eexists. split; [reflexivity |].
  unfold ponto. split; [apply upd_length |]. split.
  - rewrite nth_upd_same by lia. reflexivity.
  - intros k Hk. apply nth_upd_other. congruence.
Qed.

Lemma mover_sem_acoplamento_witness :
  exists pontos',
    mover 1 laco_a 4 (mkPoint 2 9) = Some pontos'
    /\ List.length pontos' = List.length laco_a
    /\ ponto pontos' (Z.to_nat 4) = padd (ponto laco_a (Z.to_nat 4)) (mkPoint 2 9)
    /\ forall k : nat, k <> Z.to_nat 4 -> ponto pontos' k = ponto laco_a k.
Proof.
  apply (mover_sem_acoplamento laco_a 4 (mkPoint 2 9) 1).
  - cbn [laco_a List.length]. lia.
  - left. discriminate.
  - lia.
Defined.

(** X10: dragging a corner of a 12-point loop by [d] and then by [-d]
    puts the twelve points back where they were. *)
Theorem mover_quina_ida_e_volta (pontos : estado) (idx : Z) (d : QPointF)
    (depth : nat) :
  List.length pontos = 12%nat -> 0 <= idx < 12 -> idx mod 3 = 0 ->
  (2 <= depth)%nat ->
  exists pontos1 pontos2,
    mover depth pontos idx d = Some pontos1
    /\ mover depth pontos1 idx (mkPoint (- px d) (- py d)) = Some pontos2
    /\ Forall2 peq pontos2 pontos.
Proof.
  intros Hl Hidx Hmod Hdepth.
  destruct (doze_pontos pontos Hl)
    as (a0 & a1 & a2 & a3 & a4 & a5 & a6 & a7 & a8 & a9 & a10 & a11 & ->).
  destruct depth as [| [| n]]; try lia.
  assert (Hcases : idx = 0 \/ idx = 3 \/ idx = 6 \/ idx = 9).
  { assert (idx = 3 * (idx / 3)) by (pose proof (Z.div_mod idx 3); lia). lia. }
  destruct Hcases as [-> | [-> | [-> | ->]]];
    (do 2 eexists; split; [reflexivity |]; split; [reflexivity |];
     repeat apply Forall2_cons; try apply Forall2_nil;
     unfold peq, padd, psub; cbn [px py]; split; ring).
Qed.

Lemma mover_quina_ida_e_volta_witness :
  exists pontos1 pontos2,
    mover 2 laco_a 3 (mkPoint 5 (-3)) = Some pontos1
    /\ mover 2 pontos1 3 (mkPoint (- px (mkPoint 5 (-3))) (- py (mkPoint 5 (-3))))
       = Some pontos2
    /\ Forall2 peq pontos2 laco_a.
Proof.
  apply (mover_quina_ida_e_volta laco_a 3 (mkPoint 5 (-3)) 2);
    [reflexivity | lia | reflexivity | lia].
Defined.

Lemma updatePath_sem_12 (pontos : list QPointF) :
  List.length pontos <> 12%nat -> updatePath pontos = Ok None.
Proof.
  intro Hl. unfold updatePath.
  destruct (Z.eqb_spec (Z.of_nat (List.length pontos)) 12); [lia | reflexivity].
Qed.

(** X11: [updatePath] never raises.  On a list that does not have 12
    points it returns without touching the path.  On 12 points the path
    it sets starts at [pontos[0]], has one cubic per segment of the loop
    with the control points of the curves that [gerar_malha_12x12] reads
    (lines 261-266), and is closed: its last cubic ends at [pontos[0]]. *)
Theorem updatePath_contorno (pontos : list QPointF) :
  (List.length pontos <> 12%nat -> updatePath pontos = Ok None)
  /\ (List.length pontos = 12%nat ->
      exists curvas,
        curvas_do_laco pontos = Ok curvas
        /\ updatePath pontos
           = Ok (Some (MoveTo (ponto pontos 0) :: map cubica curvas))
        /\ last (map cubica curvas) (MoveTo (ponto pontos 0))
           = CubicTo (ponto pontos 10) (ponto pontos 11) (ponto pontos 0)).
Proof.
  split.
  - apply updatePath_sem_12.
  - intro Hl.
    destruct (doze_pontos pontos Hl)
      as (a0 & a1 & a2 & a3 & a4 & a5 & a6 & a7 & a8 & a9 & a10 & a11 & ->).
    exists [(a0, a1, a2, a3); (a3, a4, a5, a6); (a6, a7, a8, a9); (a9, a10, a11, a0)].
    repeat split; reflexivity.
Qed.

Lemma updatePath_contorno_witness :
  updatePath [mkPoint 0 0; mkPoint 1 1] = Ok None
  /\ exists curvas,
       curvas_do_laco laco_a = Ok curvas
       /\ updatePath laco_a
          = Ok (Some (MoveTo (ponto laco_a 0) :: map cubica curvas))
       /\ last (map cubica curvas) (MoveTo (ponto laco_a 0))
          = CubicTo (ponto laco_a 10) (ponto laco_a 11) (ponto laco_a 0).
Proof.
  split.
  - apply (updatePath_contorno [mkPoint 0 0; mkPoint 1 1]). discriminate.
  - apply (updatePath_contorno laco_a). reflexivity.
Defined.

(** X12: [paint] has no guard on the number of points: on fewer than 12
    points it raises [IndexError] (where [updatePath] returns quietly),
    and on 12 points or more it draws eight guide lines, each joining a
    handle to the corner next to it in the loop. *)
Theorem paint_linhas_guia (pontos : list QPointF) :
  ((List.length pontos < 12)%nat ->
     paint pontos = Raise IndexError /\ updatePath pontos = Ok None)
  /\ ((12 <= List.length pontos)%nat ->
      paint pontos
      = Ok [(ponto pontos 0, ponto pontos 1); (ponto pontos 3, ponto pontos 2);
            (ponto pontos 3, ponto pontos 4); (ponto pontos 6, ponto pontos 5);
            (ponto pontos 6, ponto pontos 7); (ponto pontos 9, ponto pontos 8);
            (ponto pontos 9, ponto pontos 10); (ponto pontos 0, ponto pontos 11)]).
Proof.
  split.
  - intro Hl. split.
    + do 12 (destruct pontos as [| ? pontos]; [reflexivity |]).
      cbn [List.length] in Hl. lia.
    + apply updatePath_sem_12. lia.
  - intro Hl. rewrite <- (firstn_skipn 12 pontos).
    assert (Hf : List.length (firstn 12 pontos) = 12%nat)
      by (rewrite length_firstn; lia).
    destruct (doze_pontos _ Hf)
      as (a0 & a1 & a2 & a3 & a4 & a5 & a6 & a7 & a8 & a9 & a10 & a11 & ->).
    unfold paint, range_0_12_3. cbn [mapM].
    rewrite !(py_getitem_prefixo
                [a0; a1; a2; a3; a4; a5; a6; a7; a8; a9; a10; a11])
      by (cbn; lia).
    reflexivity.
Qed.

Lemma paint_linhas_guia_witness :
  (paint [mkPoint 0 0; mkPoint 1 1; mkPoint 2 0] = Raise IndexError
   /\ updatePath [mkPoint 0 0; mkPoint 1 1; mkPoint 2 0] = Ok None)
  /\ paint laco_a
     = Ok [(ponto laco_a 0, ponto laco_a 1); (ponto laco_a 3, ponto laco_a 2);
           (ponto laco_a 3, ponto laco_a 4); (ponto laco_a 6, ponto laco_a 5);
           (ponto laco_a 6, ponto laco_a 7); (ponto laco_a 9, ponto laco_a 8);
           (ponto laco_a 9, ponto laco_a 10); (ponto laco_a 0, ponto laco_a 11)].
Proof.
  split.
  - apply (paint_linhas_guia [mkPoint 0 0; mkPoint 1 1; mkPoint 2 0]).
    cbn [List.length]. lia.
  - apply (paint_linhas_guia laco_a). cbn [laco_a List.length]. lia.
Defined.

(** X13: for the indices 0 to 11 of a loop the yellow brush of
    [__init__] ([idx in [0, 3, 6, 9]]) marks exactly the items that
    [itemChange] treats as corners ([idx % 3 == 0]); from index 12 on the
    two tests part: item 12 is green yet divisible by 3. *)
Theorem cor_marca_as_quinas (idx : Z) :
  (0 <= idx < 12 -> (cor_do_ponto idx = Amarelo <-> idx mod 3 = 0))
  /\ cor_do_ponto 12 = Verde /\ 12 mod 3 = 0.
Proof.
  split; [| split; reflexivity].
  intro Hidx.
  assert (Hk : idx = 0 \/ idx = 1 \/ idx = 2 \/ idx = 3 \/ idx = 4 \/ idx = 5
               \/ idx = 6 \/ idx = 7 \/ idx = 8 \/ idx = 9 \/ idx = 10
               \/ idx = 11) by lia.
  repeat (destruct Hk as [-> | Hk]); try subst idx;
    (split; intro H; first [reflexivity | discriminate H]).
Qed.

Lemma cor_marca_as_quinas_witness :
  ((cor_do_ponto 6 = Amarelo <-> 6 mod 3 = 0))
  /\ cor_do_ponto 12 = Verde /\ 12 mod 3 = 0.
Proof.
  destruct (cor_marca_as_quinas 6) as [H1 H2].
  split; [apply H1; lia | exact H2].
Defined.

(** ** The display scale and the seeded loop *)

Lemma py_min_spec (a b : Q) :
  (py_min a b <= a /\ py_min a b <= b)%Q /\ (py_min a b = a \/ py_min a b = b).
Proof.
  unfold py_min. destruct (Qle_bool a b) eqn:E.
  - apply Qle_bool_iff in E. split; [split; [apply Qle_refl | exact E] | left; reflexivity].
  - assert (H : (b < a)%Q).
    { apply Qnot_le_lt. intro Hle. apply Qle_bool_iff in Hle. congruence. }
    split; [split; [apply Qlt_le_weak; exact H | apply Qle_refl] | right; reflexivity].
Qed.

Lemma py_min_maior (a b c : Q) : (c <= a)%Q -> (c <= b)%Q -> (c <= py_min a b)%Q.
Proof.
  intros Ha Hb. destruct (py_min_spec a b) as [_ [-> | ->]]; assumption.
Qed.

Lemma inject_Z_nao_negativo (z : Z) : 0 <= z -> (0 <= inject_Z z)%Q.
Proof. intro Hz. change 0%Q with (inject_Z 0). rewrite <- Zle_Qle. exact Hz. Qed.

Lemma inject_Z_positivo (z : Z) : 0 < z -> (0 < inject_Z z)%Q.
Proof. intro Hz. change 0%Q with (inject_Z 0). rewrite <- Zlt_Qlt. exact Hz. Qed.

Lemma escala_limites (largura_tela altura_tela w h : Z) :
  0 <= largura_tela -> 0 <= altura_tela -> 0 < w -> 0 < h ->
  exists escala,
    escala_de largura_tela altura_tela w h = Ok escala
    /\ (0 <= escala /\ escala <= 1)%Q
    /\ (inject_Z w * escala <= inject_Z (largura_tela * 4) / 5)%Q
    /\ (inject_Z h * escala <= inject_Z (altura_tela * 2) / 3)%Q.
Proof.
  intros HL HA Hw Hh. unfold escala_de.
  rewrite !py_div_ok by lia. cbn [bind]. eexists. split; [reflexivity |].
  pose proof (inject_Z_positivo w Hw) as Hwq.
  pose proof (inject_Z_positivo h Hh) as Hhq.
  pose proof (inject_Z_nao_negativo (largura_tela * 4) ltac:(lia)) as HLq.
  pose proof (inject_Z_nao_negativo (altura_tela * 2) ltac:(lia)) as HAq.
  set (a := (inject_Z (largura_tela * 4) / 5 / inject_Z w)%Q).
  set (b := (inject_Z (altura_tela * 2) / 3 / inject_Z h)%Q).
  assert (Ha : (0 <= a)%Q).
  { unfold a. apply Qle_shift_div_l; [exact Hwq |]. rewrite Qmult_0_l.
    apply Qle_shift_div_l; [reflexivity | rewrite Qmult_0_l; exact HLq]. }
  assert (Hb : (0 <= b)%Q).
  { unfold b. apply Qle_shift_div_l; [exact Hhq |]. rewrite Qmult_0_l.
    apply Qle_shift_div_l; [reflexivity | rewrite Qmult_0_l; exact HAq]. }
  destruct (py_min_spec (py_min a b) 1) as [[Hm1 Hm2] _].
  destruct (py_min_spec a b) as [[Hma Hmb] _].
  assert (Hm0 : (0 <= py_min (py_min a b) 1)%Q).
  { apply py_min_maior; [apply py_min_maior; assumption | lra]. }
  split; [split; assumption |]. split.
  - apply Qle_trans with (inject_Z w * a)%Q.
    + apply Qmult_le_l; [exact Hwq | lra].
    + unfold a. field_simplify; [apply Qle_refl | lra].
  - apply Qle_trans with (inject_Z h * b)%Q.
    + apply Qmult_le_l; [exact Hhq | lra].
    + unfold b. field_simplify; [apply Qle_refl | lra].
Qed.

(** X14: for an image that loaded (positive width and height) the viewer
    is built, and the displayed size is never larger than the image, never
    wider than 4/5 of the screen and never taller than 2/3 of it. *)
Theorem tamanho_exibido_limitado (caminho : string) (w h largura_tela altura_tela : Z) :
  0 < w -> 0 < h -> 0 <= largura_tela -> 0 <= altura_tela ->
  exists self,
    ImageViewer_init caminho (Some (w, h)) largura_tela altura_tela = Visor self
    /\ orig_W_cv self = w /\ orig_H_cv self = h
    /\ 0 <= nova_W_pyqt self <= w
    /\ 0 <= nova_H_pyqt self <= h
    /\ 5 * nova_W_pyqt self <= 4 * largura_tela
    /\ 3 * nova_H_pyqt self <= 2 * altura_tela.
Proof.
  intros Hw Hh HL HA. unfold ImageViewer_init.
  destruct (escala_limites largura_tela altura_tela w h HL HA Hw Hh)
    as [escala (-> & [He0 He1] & HeW & HeH)].
  eexists. split; [reflexivity |].
  cbn [orig_W_cv orig_H_cv nova_W_pyqt nova_H_pyqt].
  pose proof (inject_Z_positivo w Hw) as Hwq.
  pose proof (inject_Z_positivo h Hh) as Hhq.
  assert (HxW : (0 <= inject_Z w * escala)%Q) by (apply Qmult_le_0_compat; lra).
  assert (HxH : (0 <= inject_Z h * escala)%Q) by (apply Qmult_le_0_compat; lra).
  rewrite (py_int_floor _ HxW), (py_int_floor _ HxH).
  pose proof (Qfloor_le (inject_Z w * escala)) as FW.
  pose proof (Qfloor_le (inject_Z h * escala)) as FH.
  assert (UW : (inject_Z w * escala <= inject_Z w)%Q).
  { rewrite <- (Qmult_1_r (inject_Z w)) at 2. apply Qmult_le_l; assumption. }
  assert (UH : (inject_Z h * escala <= inject_Z h)%Q).
  { rewrite <- (Qmult_1_r (inject_Z h)) at 2. apply Qmult_le_l; assumption. }
  split; [reflexivity |]. split; [reflexivity |].
  repeat split.
  - change 0 with (Qfloor 0). apply Qfloor_resp_le. exact HxW.
  - rewrite Zle_Qle. lra.
  - change 0 with (Qfloor 0). apply Qfloor_resp_le. exact HxH.
  - rewrite Zle_Qle. lra.
  - rewrite Zle_Qle, !inject_Z_mult. rewrite inject_Z_mult in HeW.
    change (inject_Z 5) with 5%Q. change (inject_Z 4) with 4%Q in *.
    unfold Qdiv in HeW. change (/ 5)%Q with (1 # 5)%Q in HeW. lra.
  - rewrite Zle_Qle, !inject_Z_mult. rewrite inject_Z_mult in HeH.
    change (inject_Z 3) with 3%Q. change (inject_Z 2) with 2%Q in *.
    unfold Qdiv in HeH. change (/ 3)%Q with (1 # 3)%Q in HeH. lra.
Qed.

Lemma tamanho_exibido_limitado_witness :
  exists self,
    ImageViewer_init "foto.png" (Some (4000, 3000)) 1920 1080 = Visor self
    /\ orig_W_cv self = 4000 /\ orig_H_cv self = 3000
    /\ 0 <= nova_W_pyqt self <= 4000
    /\ 0 <= nova_H_pyqt self <= 3000
    /\ 5 * nova_W_pyqt self <= 4 * 1920
    /\ 3 * nova_H_pyqt self <= 2 * 1080.
Proof. apply (tamanho_exibido_limitado "foto.png" 4000 3000 1920 1080); lia. Defined.

(** X15: an image that fits in 4/5 of the screen width and 2/3 of the
    screen height is displayed at its own size. *)
Theorem imagem_que_cabe_nao_e_reduzida (caminho : string)
    (w h largura_tela altura_tela : Z) :
  0 < w -> 0 < h -> 5 * w <= 4 * largura_tela -> 3 * h <= 2 * altura_tela ->
  exists self,
    ImageViewer_init caminho (Some (w, h)) largura_tela altura_tela = Visor self
    /\ nova_W_pyqt self = w /\ nova_H_pyqt self = h.
Proof.
  intros Hw Hh HL HA. unfold ImageViewer_init, escala_de.
  rewrite !py_div_ok by lia. cbn [bind]. eexists. split; [reflexivity |].
  cbn [nova_W_pyqt nova_H_pyqt].
  pose proof (inject_Z_positivo w Hw) as Hwq.
  pose proof (inject_Z_positivo h Hh) as Hhq.
  set (a := (inject_Z (largura_tela * 4) / 5 / inject_Z w)%Q).
  set (b := (inject_Z (altura_tela * 2) / 3 / inject_Z h)%Q).
  assert (Ha : (1 <= a)%Q).
  { unfold a. apply Qle_shift_div_l; [exact Hwq |]. rewrite Qmult_1_l.
    apply Qle_shift_div_l; [reflexivity |].
    change 5%Q with (inject_Z 5). rewrite <- inject_Z_mult, <- Zle_Qle. lia. }
  assert (Hb : (1 <= b)%Q).
  { unfold b. apply Qle_shift_div_l; [exact Hhq |]. rewrite Qmult_1_l.
    apply Qle_shift_div_l; [reflexivity |].
    change 3%Q with (inject_Z 3). rewrite <- inject_Z_mult, <- Zle_Qle. lia. }
  assert (He : (py_min (py_min a b) 1 == 1)%Q).
  { assert (Hm : (1 <= py_min a b)%Q) by (apply py_min_maior; assumption).
    destruct (py_min_spec (py_min a b) 1) as [[_ H1] [E | E]]; rewrite E.
    - apply Qle_antisym; [rewrite <- E; exact H1 | exact Hm].
    - reflexivity. }
  assert (HxW : (0 <= inject_Z w * py_min (py_min a b) 1)%Q)
    by (rewrite He; lra).
  assert (HxH : (0 <= inject_Z h * py_min (py_min a b) 1)%Q)
    by (rewrite He; lra).
  rewrite (py_int_floor _ HxW), (py_int_floor _ HxH).
  split.
  - rewrite <- (Qfloor_Z w) at 2. apply Qfloor_comp. rewrite He. ring.
  - rewrite <- (Qfloor_Z h) at 2. apply Qfloor_comp. rewrite He. ring.
Qed.

Lemma imagem_que_cabe_nao_e_reduzida_witness :
  exists self,
    ImageViewer_init "foto.png" (Some (800, 600)) 1920 1080 = Visor self
    /\ nova_W_pyqt self = 800 /\ nova_H_pyqt self = 600.
Proof. apply (imagem_que_cabe_nao_e_reduzida "foto.png" 800 600 1920 1080); lia. Defined.

(** X16: the seeded loop has 12 points and all of them lie inside the
    displayed image, whatever its (non-negative) size. *)
Theorem pontos_iniciais_dentro_da_imagem (nova_W nova_H : Z) :
  0 <= nova_W -> 0 <= nova_H ->
  List.length (pontos_iniciais nova_W nova_H) = 12%nat
  /\ Forall (fun p => (0 <= px p /\ px p <= inject_Z nova_W)%Q
                      /\ (0 <= py p /\ py p <= inject_Z nova_H)%Q)
            (pontos_iniciais nova_W nova_H).
Proof.
  intros HW HH. split; [reflexivity |].
  pose proof (inject_Z_nao_negativo nova_W HW) as HWq.
  pose proof (inject_Z_nao_negativo nova_H HH) as HHq.
  pose proof (inject_Z_nao_negativo (Z.min nova_W nova_H) ltac:(lia)) as Hm0.
  assert (HmW : (inject_Z (Z.min nova_W nova_H) <= inject_Z nova_W)%Q)
    by (rewrite <- Zle_Qle; lia).
  assert (HmH : (inject_Z (Z.min nova_W nova_H) <= inject_Z nova_H)%Q)
    by (rewrite <- Zle_Qle; lia).
  unfold pontos_iniciais, Qdiv.
  change (/ 2)%Q with (1 # 2)%Q. change (/ 4)%Q with (1 # 4)%Q.
  repeat apply Forall_cons; try apply Forall_nil; cbn [px py];
    repeat split; lra.
Qed.

Lemma pontos_iniciais_dentro_da_imagem_witness :
  List.length (pontos_iniciais 800 600) = 12%nat
  /\ Forall (fun p => (0 <= px p /\ px p <= inject_Z 800)%Q
                      /\ (0 <= py p /\ py p <= inject_Z 600)%Q)
            (pontos_iniciais 800 600).
Proof. apply (pontos_iniciais_dentro_da_imagem 800 600); lia. Defined.

(** ** The commit action *)

Lemma ponto_malha_divisor_zero (m : malha_float) (nW nH W H Nr Nc j i : Z) :
  malha_forma m Nr Nc -> 0 <= j < Nr -> 0 <= i < Nc -> nW = 0 \/ nH = 0 ->
  ponto_malha m nW nH W H j i = Raise ZeroDivisionError.
Proof.
  intros [Hr Hc] Hj Hi Hz. unfold ponto_malha.
  destruct (py_getitem_ok m j) as [linha [-> Hin]]; [lia |]. cbn [bind].
  rewrite Forall_forall in Hc. specialize (Hc linha Hin).
  destruct (py_getitem_ok linha i) as [[u_red v_red] [-> _]]; [lia |]. cbn [bind].
  unfold py_div. destruct (Z.eqb_spec nW 0) as [_ | HnW]; [reflexivity |].
  cbn [bind]. destruct Hz as [Hz | Hz]; [contradiction |].
  subst nH. reflexivity.
Qed.

Lemma py_range_cabeca (n : Z) : 1 <= n -> exists r, py_range n = 0 :: r.
Proof.
  intro Hn. unfold py_range.
  destruct (Z.to_nat n) as [| k] eqn:E; [lia |].
  cbn [seq map]. eexists. reflexivity.
Qed.

Lemma para_tuplas_forma (m : malha) :
  List.length m = 12%nat -> Forall (fun linha => List.length linha = 12%nat) m ->
  malha_forma (para_tuplas m) 12 12.
Proof.
  intros Hl Hr. unfold malha_forma, para_tuplas. split.
  - rewrite length_map. lia.
  - apply Forall_forall. intros linha Hin.
    apply in_map_iff in Hin. destruct Hin as [l [<- Hl']].
    rewrite length_map. rewrite Forall_forall in Hr. rewrite (Hr l Hl'). reflexivity.
Qed.

(** X17: when the displayed width or height is 0 (an image much longer
    than wide, or much wider than long, on the screen at hand) the commit
    action raises [ZeroDivisionError] out of the field generator, before
    the image is read and before anything is written. *)
Theorem commit_com_exibicao_nula (cv : cv2) (self : ImageViewer) :
  (12 <= List.length (quad_pontos self))%nat ->
  1 <= orig_W_cv self -> 1 <= orig_H_cv self ->
  nova_W_pyqt self = 0 \/ nova_H_pyqt self = 0 ->
  processar_remapeamento cv self = Raise ZeroDivisionError.
Proof.
  intros Hl HW HH Hz. unfold processar_remapeamento.
  destruct (gerar_malha_12x12_forma _ Hl) as [m (-> & Hm & Hrows)].
  cbn [bind].
  assert (Hraise : gerar_mapas_remap (para_tuplas m) (nova_W_pyqt self)
                     (nova_H_pyqt self) (orig_W_cv self) (orig_H_cv self) 12 12
                   = Raise ZeroDivisionError).
  { unfold gerar_mapas_remap.
    destruct (np_zeros_shape (orig_H_cv self) (orig_W_cv self)) as [z [-> _]];
      try lia.
    cbn [bind].
    destruct (py_range_cabeca (orig_H_cv self) HH) as [rh ->].
    destruct (py_range_cabeca (orig_W_cv self) HW) as [rw ->].
    cbn [for_each]. unfold pixel.
    destruct (indice_eixo_limites 0 12 (orig_W_cv self))
      as [ei (-> & _ & Hti & Hci & _)]; try lia.
    destruct (indice_eixo_limites 0 12 (orig_H_cv self))
      as [ej (-> & _ & Htj & Hcj & _)]; try lia.
    cbn [bind].
    rewrite (ponto_malha_divisor_zero _ _ _ _ _ 12 12);
      [reflexivity | apply para_tuplas_forma; assumption | lia | lia | exact Hz]. }
  rewrite Hraise. reflexivity.
Qed.

Lemma commit_com_exibicao_nula_witness :
  ImageViewer_init "tira.png" (Some (1, 10000)) 1920 1080 = Visor visor_tira
  /\ processar_remapeamento cv_sem_falhas visor_tira = Raise ZeroDivisionError.
Proof.
  split; [vm_compute; reflexivity |].
  apply (commit_com_exibicao_nula cv_sem_falhas visor_tira).
  - cbn. lia.
  - cbn. lia.
  - cbn. lia.
  - left. reflexivity.
Defined.

Lemma campo_ok (self : ImageViewer) :
  (12 <= List.length (quad_pontos self))%nat ->
  0 <= orig_W_cv self -> 0 <= orig_H_cv self ->
  nova_W_pyqt self <> 0 -> nova_H_pyqt self <> 0 ->
  exists m mapas,
    gerar_malha_12x12 (quad_pontos self) = Ok m
    /\ gerar_mapas_remap (para_tuplas m) (nova_W_pyqt self) (nova_H_pyqt self)
         (orig_W_cv self) (orig_H_cv self) 12 12 = Ok mapas.
Proof.
  intros Hl HW HH HnW HnH.
  destruct (gerar_malha_12x12_forma _ Hl) as [m (Hm & Hlen & Hrows)].
  destruct (gerar_mapas_remap_ok (para_tuplas m) (nova_W_pyqt self)
              (nova_H_pyqt self) (orig_W_cv self) (orig_H_cv self) 12 12)
    as [mx [my [Hrun _]]]; try assumption; try lia.
  - apply para_tuplas_forma; assumption.
  - exists m, (mx, my). split; assumption.
Qed.

(** X18: on a viewer with at least 12 control points, non-negative image
    dimensions and non-zero display dimensions, when [cv2.imread] yields no
    image the commit action returns at line 329 without an exception: the
    mesh and the field are built, the OpenCV error is printed, nothing is
    shown and nothing is written. *)
Theorem commit_sem_imagem (cv : cv2) (self : ImageViewer) :
  (12 <= List.length (quad_pontos self))%nat ->
  0 <= orig_W_cv self -> 0 <= orig_H_cv self ->
  nova_W_pyqt self <> 0 -> nova_H_pyqt self <> 0 ->
  imread cv (image_path self) = false ->
  (exists mapas, campo self = Ok mapas)
  /\ processar_remapeamento cv self
     = Ok [Imprime "Processando remapeamento...";
           Imprime ("Erro OpenCV: Não foi possível carregar a imagem em "
                    ++ image_path self)%string].
Proof.
  intros Hl HW HH HnW HnH Hr.
  destruct (campo_ok self Hl HW HH HnW HnH) as [m [mapas [Hm Hf]]].
  split.
  - exists mapas. unfold campo. rewrite Hm. cbn [bind]. exact Hf.
  - unfold processar_remapeamento. rewrite Hm. cbn [bind]. rewrite Hf.
    cbn [bind]. rewrite Hr. reflexivity.
Qed.

Lemma commit_sem_imagem_witness :
  (exists mapas, campo visor_pagina = Ok mapas)
  /\ processar_remapeamento (mkCv2 (fun _ => false) (fun _ => Escreve)) visor_pagina
     = Ok [Imprime "Processando remapeamento...";
           Imprime ("Erro OpenCV: Não foi possível carregar a imagem em "
                    ++ image_path visor_pagina)%string].
Proof.
  apply (commit_sem_imagem (mkCv2 (fun _ => false) (fun _ => Escreve)) visor_pagina).
  - cbn. lia.
  - cbn. lia.
  - cbn. lia.
  - discriminate.
  - discriminate.
  - reflexivity.
Defined.

(** X19: the return value of [cv2.imwrite] is not looked at: when it
    declines to write (returns [False]) without raising, the commit action
    still prints that the image was saved, although no file was
    written. *)
Theorem mensagem_de_sucesso_sem_arquivo (cv : cv2) (self : ImageViewer) :
  (12 <= List.length (quad_pontos self))%nat ->
  0 <= orig_W_cv self -> 0 <= orig_H_cv self ->
  nova_W_pyqt self <> 0 -> nova_H_pyqt self <> 0 ->
  imread cv (image_path self) = true ->
  imwrite cv (nome_salvar (image_path self)) = Recusa ->
  exists eventos,
    processar_remapeamento cv self = Ok eventos
    /\ In (Imprime ("Imagem corrigida salva como: "
                    ++ nome_salvar (image_path self))%string) eventos
    /\ forall nome, ~ In (Arquivo nome) eventos.
Proof.
  intros Hl HW HH HnW HnH Hr Hw.
  destruct (campo_ok self Hl HW HH HnW HnH) as [m [mapas [Hm Hf]]].
  unfold processar_remapeamento. rewrite Hm. cbn [bind]. rewrite Hf. cbn [bind].
  rewrite Hr, Hw. cbn [negb]. eexists. split; [reflexivity |].
  cbn [app In]. split; [auto 10 |].
  intros nome Hin.
  repeat (destruct Hin as [Hin | Hin]; try discriminate Hin). contradiction.
Qed.

Lemma mensagem_de_sucesso_sem_arquivo_witness :
  exists eventos,
    processar_remapeamento (mkCv2 (fun _ => true) (fun _ => Recusa)) visor_pagina
    = Ok eventos
    /\ In (Imprime ("Imagem corrigida salva como: "
                    ++ nome_salvar (image_path visor_pagina))%string) eventos
    /\ forall nome, ~ In (Arquivo nome) eventos.
Proof.
  apply (mensagem_de_sucesso_sem_arquivo
           (mkCv2 (fun _ => true) (fun _ => Recusa)) visor_pagina).
  - cbn. lia.
  - cbn. lia.
  - cbn. lia.
  - discriminate.
  - discriminate.
  - reflexivity.
  - reflexivity.
Defined.

(** ** The field stays inside the image *)

Lemma convexa2 (w0 w1 x0 x1 a : Q) :
  (0 <= w0 -> 0 <= w1 -> w0 + w1 == 1 ->
   0 <= x0 /\ x0 <= a -> 0 <= x1 /\ x1 <= a ->
   0 <= x0 * w0 + x1 * w1 /\ x0 * w0 + x1 * w1 <= a)%Q.
Proof.
  intros H0 H1 Hs [L0 U0] [L1 U1].
  pose proof (Qmult_le_0_compat _ _ L0 H0).
  pose proof (Qmult_le_0_compat _ _ L1 H1).
  pose proof (Qmult_le_compat_r _ _ _ U0 H0).
  pose proof (Qmult_le_compat_r _ _ _ U1 H1).
  assert (E : (a * w0 + a * w1 == a)%Q).
  { transitivity (a * (w0 + w1))%Q; [ring | rewrite Hs; ring]. }
  split; lra.
Qed.

Lemma convexa4 (w0 w1 w2 w3 x0 x1 x2 x3 a : Q) :
  (0 <= w0 -> 0 <= w1 -> 0 <= w2 -> 0 <= w3 -> w0 + w1 + w2 + w3 == 1 ->
   0 <= x0 /\ x0 <= a -> 0 <= x1 /\ x1 <= a ->
   0 <= x2 /\ x2 <= a -> 0 <= x3 /\ x3 <= a ->
   0 <= x0 * w0 + x1 * w1 + x2 * w2 + x3 * w3
   /\ x0 * w0 + x1 * w1 + x2 * w2 + x3 * w3 <= a)%Q.
Proof.
  intros H0 H1 H2 H3 Hs [L0 U0] [L1 U1] [L2 U2] [L3 U3].
  pose proof (Qmult_le_0_compat _ _ L0 H0).
  pose proof (Qmult_le_0_compat _ _ L1 H1).
  pose proof (Qmult_le_0_compat _ _ L2 H2).
  pose proof (Qmult_le_0_compat _ _ L3 H3).
  pose proof (Qmult_le_compat_r _ _ _ U0 H0).
  pose proof (Qmult_le_compat_r _ _ _ U1 H1).
  pose proof (Qmult_le_compat_r _ _ _ U2 H2).
  pose proof (Qmult_le_compat_r _ _ _ U3 H3).
  assert (E : (a * w0 + a * w1 + a * w2 + a * w3 == a)%Q).
  { transitivity (a * (w0 + w1 + w2 + w3))%Q; [ring | rewrite Hs; ring]. }
  split; lra.
Qed.

Lemma ponto_bezier_dentro (a b : Q) (p0 p1 p2 p3 : QPointF) (t : Q) :
  (0 <= t)%Q -> (t <= 1)%Q ->
  dentro a b p0 -> dentro a b p1 -> dentro a b p2 -> dentro a b p3 ->
  dentro a b (ponto_bezier p0 p1 p2 p3 t).
Proof.
  intros H0 H1 [X0 Y0] [X1 Y1] [X2 Y2] [X3 Y3].
  assert (Hs : (0 <= 1 - t)%Q) by lra.
  assert (W0 : (0 <= (1 - t) ^ 3)%Q) by (apply Qpower_0_le; exact Hs).
  assert (W1 : (0 <= 3 * (1 - t) ^ 2 * t)%Q).
  { apply Qmult_le_0_compat; [| exact H0].
    apply Qmult_le_0_compat; [lra | apply Qpower_0_le; exact Hs]. }
  assert (W2 : (0 <= 3 * (1 - t) * t ^ 2)%Q).
  { apply Qmult_le_0_compat; [| apply Qpower_0_le; exact H0].
    apply Qmult_le_0_compat; [lra | exact Hs]. }
  assert (W3 : (0 <= t ^ 3)%Q) by (apply Qpower_0_le; exact H0).
  assert (S : ((1 - t) ^ 3 + 3 * (1 - t) ^ 2 * t + 3 * (1 - t) * t ^ 2 + t ^ 3
               == 1)%Q) by ring.
  unfold dentro, ponto_bezier, padd, pscale. cbn [px py].
  split; apply convexa4; assumption.
Qed.

Lemma mistura_dentro (a b alpha : Q) (p q : QPointF) :
  (0 <= alpha)%Q -> (alpha <= 1)%Q ->
  dentro a b p -> dentro a b q -> dentro a b (mistura alpha p q).
Proof.
  intros H0 H1 [Xp Yp] [Xq Yq].
  unfold dentro, mistura, padd, pscale. cbn [px py].
  split; apply convexa2; try assumption; try lra; ring.
Qed.

Lemma fracao_de_11 (k : Z) :
  0 <= k < 12 -> (0 <= inject_Z k / 11 /\ inject_Z k / 11 <= 1)%Q.
Proof.
  intro Hk.
  assert (H0 : (0 <= inject_Z k)%Q) by (apply inject_Z_nao_negativo; lia).
  assert (H1 : (inject_Z k <= 11)%Q).
  { change 11%Q with (inject_Z 11). rewrite <- Zle_Qle. lia. }
  unfold Qdiv. change (/ 11)%Q with (1 # 11)%Q. split; lra.
Qed.

Lemma reescala_dentro (x : Q) (W nW : Z) :
  0 < nW -> 0 <= W -> (0 <= x /\ x <= inject_Z nW)%Q ->
  (0 <= x * inject_Z W / inject_Z nW
   /\ x * inject_Z W / inject_Z nW <= inject_Z W)%Q.
Proof.
  intros HnW HW [L U].
  pose proof (inject_Z_positivo nW HnW) as Hq.
  pose proof (inject_Z_nao_negativo W HW) as HWq.
  split.
  - apply Qle_shift_div_l; [exact Hq |]. rewrite Qmult_0_l.
    apply Qmult_le_0_compat; assumption.
  - apply Qle_shift_div_r; [exact Hq |].
    rewrite (Qmult_comm (inject_Z W)). apply Qmult_le_compat_r; assumption.
Qed.

Lemma bilinear_dentro (p00 p10 p01 p11 : Q * Q) (fx fy a b : Q) :
  (0 <= fx /\ fx <= 1)%Q -> (0 <= fy /\ fy <= 1)%Q ->
  (forall p, In p [p00; p10; p01; p11] ->
     (0 <= fst p /\ fst p <= a)%Q /\ (0 <= snd p /\ snd p <= b)%Q) ->
  (0 <= fst (bilinear p00 p10 p01 p11 fx fy)
   /\ fst (bilinear p00 p10 p01 p11 fx fy) <= a)%Q
  /\ (0 <= snd (bilinear p00 p10 p01 p11 fx fy)
      /\ snd (bilinear p00 p10 p01 p11 fx fy) <= b)%Q.
Proof.
  intros [Fx0 Fx1] [Fy0 Fy1] Hp.
  destruct (Hp p00 ltac:(cbn; auto)) as [X00 Y00].
  destruct (Hp p10 ltac:(cbn; auto)) as [X10 Y10].
  destruct (Hp p01 ltac:(cbn; auto)) as [X01 Y01].
  destruct (Hp p11 ltac:(cbn; auto)) as [X11 Y11].
  destruct p00 as [x00 y00], p10 as [x10 y10], p01 as [x01 y01], p11 as [x11 y11].
  cbn [fst snd bilinear] in *.
  assert (Sx : (1 - fx + fx == 1)%Q) by ring.
  assert (Sy : (1 - fy + fy == 1)%Q) by ring.
  split; (apply convexa2; try assumption; try lra;
          apply convexa2; try assumption; lra).
Qed.

Section MalhaDentro.

Variable cel : Z -> Z -> QPointF.
Variables nW nH W H : Z.
Hypothesis HnW : 0 < nW.
Hypothesis HnH : 0 < nH.
Hypothesis HW : 0 <= W.
Hypothesis HH : 0 <= H.
Hypothesis Hcel : forall j i, 0 <= j < 12 -> 0 <= i < 12 ->
  dentro (inject_Z nW) (inject_Z nH) (cel j i).

Lemma ponto_malha_dentro (j i : Z) :
  0 <= j < 12 -> 0 <= i < 12 ->
  exists p,
    ponto_malha
      (para_tuplas (map (fun j => map (fun i => cel j i) (py_range 12)) (py_range 12)))
      nW nH W H j i = Ok p
    /\ (0 <= fst p /\ fst p <= inject_Z W)%Q
    /\ (0 <= snd p /\ snd p <= inject_Z H)%Q.
Proof.
  intros Hj Hi. unfold ponto_malha, para_tuplas.
  rewrite map_map, py_getitem_map_range by exact Hj. cbn [bind].
  rewrite map_map, py_getitem_map_range by exact Hi. cbn [bind].
  rewrite !py_div_ok by lia. cbn [bind]. eexists. split; [reflexivity |].
  destruct (Hcel j i Hj Hi) as [Hx Hy]. cbn [fst snd].
  split; apply reescala_dentro; assumption.
Qed.

Lemma pixel_dentro (u v : Z) :
  0 <= u < W -> 0 <= v < H ->
  exists q,
    pixel
      (para_tuplas (map (fun j => map (fun i => cel j i) (py_range 12)) (py_range 12)))
      nW nH W H 12 12 u v = Ok q
    /\ (0 <= fst q /\ fst q <= inject_Z W)%Q
    /\ (0 <= snd q /\ snd q <= inject_Z H)%Q.
Proof.
  intros Hu Hv. unfold pixel.
  destruct (indice_eixo_limites u 12 W) as [ei (-> & _ & Hti & Hci & Hfi & _)];
    try lia.
  destruct (indice_eixo_limites v 12 H) as [ej (-> & _ & Htj & Hcj & Hfj & _)];
    try lia.
  cbn [bind]. rewrite Hci, Hcj.
  destruct (ponto_malha_dentro (e_trunc ej) (e_trunc ei)) as [p00 [-> B00]];
    try lia.
  destruct (ponto_malha_dentro (e_trunc ej) (e_trunc ei + 1)) as [p10 [-> B10]];
    try lia.
  destruct (ponto_malha_dentro (e_trunc ej + 1) (e_trunc ei)) as [p01 [-> B01]];
    try lia.
  destruct (ponto_malha_dentro (e_trunc ej + 1) (e_trunc ei + 1)) as [p11 [-> B11]];
    try lia.
  cbn [bind]. eexists. split; [reflexivity |].
  apply bilinear_dentro.
  - destruct Hfi. split; [assumption | apply Qlt_le_weak; assumption].
  - destruct Hfj. split; [assumption | apply Qlt_le_weak; assumption].
  - intros p [<- | [<- | [<- | [<- | []]]]]; assumption.
Qed.

End MalhaDentro.

(** X20: when the 12 control points lie inside the displayed image, the
    field built by the commit pipeline never points outside the source
    image: every [map_x] cell is in [[0, orig_W_cv]] and every [map_y]
    cell in [[0, orig_H_cv]]. *)
Theorem campo_dentro_da_imagem (self : ImageViewer) :
  List.length (quad_pontos self) = 12%nat ->
  Forall (dentro (inject_Z (nova_W_pyqt self)) (inject_Z (nova_H_pyqt self)))
         (quad_pontos self) ->
  0 < nova_W_pyqt self -> 0 < nova_H_pyqt self ->
  0 <= orig_W_cv self -> 0 <= orig_H_cv self ->
  exists map_x map_y,
    campo self = Ok (map_x, map_y)
    /\ forall u v, 0 <= u < orig_W_cv self -> 0 <= v < orig_H_cv self ->
         (0 <= array_get map_x v u /\ array_get map_x v u <= inject_Z (orig_W_cv self))%Q
         /\ (0 <= array_get map_y v u
             /\ array_get map_y v u <= inject_Z (orig_H_cv self))%Q.
Proof.
  intros Hl Hin HnW HnH HW HH. unfold campo.
  destruct (doze_pontos _ Hl)
    as (a0 & a1 & a2 & a3 & a4 & a5 & a6 & a7 & a8 & a9 & a10 & a11 & E).
  rewrite E in *. clear E.
  rewrite gerar_malha_12x12_eq. cbn [bind].
  rewrite Forall_forall in Hin.
  assert (Hcel : forall j i, 0 <= j < 12 -> 0 <= i < 12 ->
            dentro (inject_Z (nova_W_pyqt self)) (inject_Z (nova_H_pyqt self))
              (mistura (inject_Z j / 11)
                 (ponto_bezier a0 a1 a2 a3 (inject_Z i / inject_Z (12 - 1)))
                 (ponto_bezier a9 a8 a7 a6 (inject_Z i / inject_Z (12 - 1))))).
  { intros j i Hj Hi. change (12 - 1) with 11.
    destruct (fracao_de_11 j Hj). destruct (fracao_de_11 i Hi).
    apply mistura_dentro; try assumption;
      apply ponto_bezier_dentro; try assumption; apply Hin; cbn; auto 15. }
  destruct (gerar_mapas_remap_ok
              (para_tuplas
                 (map (fun j => map (fun i =>
                    mistura (inject_Z j / 11)
                      (ponto_bezier a0 a1 a2 a3 (inject_Z i / inject_Z (12 - 1)))
                      (ponto_bezier a9 a8 a7 a6 (inject_Z i / inject_Z (12 - 1))))
                    (py_range 12)) (py_range 12)))
              (nova_W_pyqt self) (nova_H_pyqt self)
              (orig_W_cv self) (orig_H_cv self) 12 12)
    as [mx [my (Hrun & _ & _ & Hcells)]]; try lia.
  { unfold malha_forma, para_tuplas. split.
    - rewrite !length_map. reflexivity.
    - apply Forall_forall. intros linha Hl'.
      apply in_map_iff in Hl'. destruct Hl' as [l [<- Hl']].
      apply in_map_iff in Hl'. destruct Hl' as [j [<- _]].
      rewrite !length_map. reflexivity. }
  exists mx, my. split; [exact Hrun |].
  intros u v Hu Hv.
  destruct (pixel_dentro _ _ _ _ _ HnW HnH HW HH Hcel u v Hu Hv)
    as [q [Hq [Bx By]]].
  rewrite (Hcells u v Hu Hv) in Hq. apply Ok_inj in Hq. subst q.
  cbn [fst snd] in Bx, By. split; assumption.
Qed.

Lemma campo_dentro_da_imagem_witness :
  exists map_x map_y,
    campo visor_a = Ok (map_x, map_y)
    /\ forall u v, 0 <= u < orig_W_cv visor_a -> 0 <= v < orig_H_cv visor_a ->
         (0 <= array_get map_x v u
          /\ array_get map_x v u <= inject_Z (orig_W_cv visor_a))%Q
         /\ (0 <= array_get map_y v u
             /\ array_get map_y v u <= inject_Z (orig_H_cv visor_a))%Q.
Proof.
  apply (campo_dentro_da_imagem visor_a).
  - reflexivity.
  - cbn [visor_a quad_pontos nova_W_pyqt nova_H_pyqt laco_a].
    repeat apply Forall_cons; try apply Forall_nil;
      unfold dentro, Qle; cbn; lia.
  - cbn. lia.
  - cbn. lia.
  - cbn. lia.
  - cbn. lia.
Defined.

Lemma pixel_origem (m : malha_float) (nW nH W H Nc Nr : Z) :
  malha_forma m Nr Nc -> nW <> 0 -> nH <> 0 ->
  2 <= Nc -> 2 <= Nr -> 1 <= W -> 1 <= H ->
  exists p00 q,
    ponto_malha m nW nH W H 0 0 = Ok p00
    /\ pixel m nW nH W H Nc Nr 0 0 = Ok q
    /\ par_eq q p00.
Proof.
  intros Hm HnW HnH HNc HNr HW HH. unfold pixel.
  assert (Hzero : forall N orig, 2 <= N -> 1 <= orig ->
            exists e, indice_eixo 0 N orig = Ok e /\ e_int e = 0
                      /\ (e_frac e == 0)%Q).
  { intros N orig HN Ho.
    destruct (indice_eixo_limites 0 N orig) as [e (He & Hf & Ht & Hc & [Hf0 _] & Hfr)];
      try lia.
    exists e. split; [exact He |].
    assert (Hfl : (e_float e == 0)%Q).
    { rewrite Hf. rewrite Z.mul_0_l. unfold Qdiv. apply Qmult_0_l. }
    assert (Hi : e_int e = 0).
    { assert (Hle : (inject_Z (e_int e) <= 0)%Q).
      { rewrite Hfr, Hfl in Hf0. lra. }
      change 0%Q with (inject_Z 0) in Hle. rewrite <- Zle_Qle in Hle. lia. }
    split; [exact Hi |]. rewrite Hfr, Hfl, Hi. reflexivity. }
  destruct (Hzero Nc W HNc HW) as [ei (-> & Hi & Hfx)].
  destruct (Hzero Nr H HNr HH) as [ej (-> & Hj & Hfy)].
  cbn [bind]. rewrite Hi, Hj.
  destruct (ponto_malha_ok m nW nH W H Nr Nc 0 0) as [[x00 y00] E00];
    try assumption; try lia.
  destruct (ponto_malha_ok m nW nH W H Nr Nc 0 (0 + 1)) as [[x10 y10] ->];
    try assumption; try lia.
  destruct (ponto_malha_ok m nW nH W H Nr Nc (0 + 1) 0) as [[x01 y01] ->];
    try assumption; try lia.
  destruct (ponto_malha_ok m nW nH W H Nr Nc (0 + 1) (0 + 1)) as [[x11 y11] ->];
    try assumption; try lia.
  rewrite E00. cbn [bind]. do 2 eexists.
  split; [reflexivity |]. split; [reflexivity |].
  unfold par_eq, bilinear. cbn [fst snd]. rewrite Hfx, Hfy. split; ring.
Qed.

(** X21: the top-left pixel of the field is the first corner of the loop
    carried from display to source coordinates: [map_x[0][0]] is
    [pontos[0].x * orig_W_cv / nova_W_pyqt] and [map_y[0][0]] is
    [pontos[0].y * orig_H_cv / nova_H_pyqt]. *)
Theorem primeiro_pixel_na_primeira_quina (self : ImageViewer) :
  List.length (quad_pontos self) = 12%nat ->
  nova_W_pyqt self <> 0 -> nova_H_pyqt self <> 0 ->
  1 <= orig_W_cv self -> 1 <= orig_H_cv self ->
  exists map_x map_y,
    campo self = Ok (map_x, map_y)
    /\ (array_get map_x 0 0
        == px (ponto (quad_pontos self) 0) * inject_Z (orig_W_cv self)
           / inject_Z (nova_W_pyqt self))%Q
    /\ (array_get map_y 0 0
        == py (ponto (quad_pontos self) 0) * inject_Z (orig_H_cv self)
           / inject_Z (nova_H_pyqt self))%Q.
Proof.
  intros Hl HnW HnH HW HH. unfold campo.
  destruct (gerar_malha_12x12_forma (quad_pontos self)) as
    [m (Hm & Hlen & Hrows)]; [lia |].
  rewrite Hm. cbn [bind].
  pose proof (para_tuplas_forma m Hlen Hrows) as Hforma.
  destruct (gerar_mapas_remap_ok (para_tuplas m) (nova_W_pyqt self)
              (nova_H_pyqt self) (orig_W_cv self) (orig_H_cv self) 12 12)
    as [mx [my (Hrun & _ & _ & Hcells)]]; try assumption; try lia.
  exists mx, my. split; [exact Hrun |].
  destruct (pixel_origem (para_tuplas m) (nova_W_pyqt self) (nova_H_pyqt self)
              (orig_W_cv self) (orig_H_cv self) 12 12)
    as [p00 [q (E00 & Eq & [Ex Ey])]]; try assumption; try lia.
  rewrite (Hcells 0 0) in Eq by lia. apply Ok_inj in Eq. subst q.
  cbn [fst snd] in Ex, Ey. rewrite Ex, Ey. clear Ex Ey Hcells Hrun.
  destruct (doze_pontos _ Hl)
    as (a0 & a1 & a2 & a3 & a4 & a5 & a6 & a7 & a8 & a9 & a10 & a11 & E).
  rewrite E in Hm |- *. rewrite gerar_malha_12x12_eq in Hm.
  apply Ok_inj in Hm. subst m.
  unfold ponto_malha, para_tuplas in E00.
  rewrite map_map, py_getitem_map_range in E00 by lia. cbn [bind] in E00.
  rewrite map_map, py_getitem_map_range in E00 by lia. cbn [bind] in E00.
  rewrite !py_div_ok in E00 by assumption. cbn [bind] in E00.
  apply Ok_inj in E00. subst p00. cbn [fst snd ponto nth].
  change (12 - 1) with 11.
  unfold mistura, ponto_bezier, padd, pscale. cbn [px py].
  split; field; apply inject_Z_nao_zero; assumption.
Qed.

Lemma primeiro_pixel_na_primeira_quina_witness :
  exists map_x map_y,
    campo visor_a = Ok (map_x, map_y)
    /\ (array_get map_x 0 0
        == px (ponto (quad_pontos visor_a) 0) * inject_Z (orig_W_cv visor_a)
           / inject_Z (nova_W_pyqt visor_a))%Q
    /\ (array_get map_y 0 0
        == py (ponto (quad_pontos visor_a) 0) * inject_Z (orig_H_cv visor_a)
           / inject_Z (nova_H_pyqt visor_a))%Q.
Proof.
  apply (primeiro_pixel_na_primeira_quina visor_a).
  - reflexivity.
  - discriminate.
  - discriminate.
  - cbn. lia.
  - cbn. lia.
Defined.

(** ** The dots of the mesh *)

Lemma forma_da_grade_upd (g : grade_pontos) (n i j : Z) (pt : QPointF) :
  forma_da_grade g n ->
  forma_da_grade (upd g (Z.to_nat i) (fun col => upd col (Z.to_nat j) (fun _ => pt))) n.
Proof.
  intros [Hl Hc]. split.
  - rewrite upd_length. exact Hl.
  - apply Forall_upd; [| exact Hc]. intros col Hcol. rewrite upd_length. exact Hcol.
Qed.

Lemma grade_get_upd_same (g : grade_pontos) (n i j : Z) (pt : QPointF) :
  forma_da_grade g n -> 0 <= i < n -> 0 <= j < n ->
  grade_get (upd g (Z.to_nat i) (fun col => upd col (Z.to_nat j) (fun _ => pt))) i j
  = pt.
Proof.
  intros [Hl Hc] Hi Hj. unfold grade_get.
  rewrite nth_upd_same by lia. rewrite nth_upd_same; [reflexivity |].
  rewrite Forall_forall in Hc.
  assert (Hin : In (nth (Z.to_nat i) g []) g) by (apply nth_In; lia).
  specialize (Hc _ Hin). lia.
Qed.

Lemma grade_get_upd_other (g : grade_pontos) (i j i' j' : Z) (pt : QPointF) :
  0 <= i -> 0 <= j -> 0 <= i' -> 0 <= j' -> (i, j) <> (i', j') ->
  grade_get (upd g (Z.to_nat i) (fun col => upd col (Z.to_nat j) (fun _ => pt))) i' j'
  = grade_get g i' j'.
Proof.
  intros Hi Hj Hi' Hj' Hne. unfold grade_get.
  destruct (Z.eq_dec i i') as [-> | Hii].
  - destruct (Nat.lt_ge_cases (Z.to_nat i') (List.length g)) as [Hlt | Hge].
    + rewrite nth_upd_same by exact Hlt.
      apply nth_upd_other. intro Heq. apply Hne. f_equal. lia.
    + rewrite !(nth_overflow _ []); [reflexivity | exact Hge |].
      rewrite upd_length. exact Hge.
  - rewrite nth_upd_other; [reflexivity | lia].
Qed.

Lemma malha_getitem (m : malha) (j i : Z) :
  List.length m = 12%nat -> Forall (fun linha => List.length linha = 12%nat) m ->
  0 <= j < 12 -> 0 <= i < 12 ->
  py_getitem m j = Ok (nth (Z.to_nat j) m [])
  /\ py_getitem (nth (Z.to_nat j) m []) i = Ok (celula_malha m j i).
Proof.
  intros Hl Hr Hj Hi. split.
  - apply py_getitem_nth. lia.
  - unfold celula_malha. apply py_getitem_nth.
    rewrite Forall_forall in Hr. rewrite (Hr (nth (Z.to_nat j) m [])); [lia |].
    apply nth_In. lia.
Qed.

(** X22: for a loop of at least 12 points, whether the dots are created
    (no [pontos_malha] yet) or an existing 12 x 12 grid of dots is
    updated, [desenhar_malha] leaves a 12 x 12 grid in which the dot
    [pontos_malha[i][j]] sits at the mesh point [malha[j][i]]: the view
    holds the mesh transposed, and both branches agree. *)
Theorem desenhar_malha_transposta (pontos : list QPointF)
    (pontos_malha : option grade_pontos) :
  (12 <= List.length pontos)%nat ->
  match pontos_malha with
  | None => True
  | Some g => forma_da_grade g 12
  end ->
  exists m g',
    gerar_malha_12x12 pontos = Ok m
    /\ desenhar_malha pontos pontos_malha = Ok g'
    /\ forma_da_grade g' 12
    /\ forall i j, 0 <= i < 12 -> 0 <= j < 12 ->
         grade_get g' i j = celula_malha m j i.
Proof.
  intros Hl Hg.
  destruct (gerar_malha_12x12_forma pontos Hl) as [m (Hm & Hlen & Hrows)].
  unfold desenhar_malha. rewrite Hm. cbn [bind]. exists m.
  destruct pontos_malha as [g |].
  - (* the dots exist: rows below [k] and, in row [k], columns below [l]
       are in place *)
    set (feito := fun (k l : Z) (s : grade_pontos) =>
      forma_da_grade s 12
      /\ forall i j, 0 <= i < 12 -> 0 <= j < 12 -> (i < k \/ (i = k /\ j < l)) ->
           grade_get s i j = celula_malha m j i).
    destruct (for_each_range (fun k s => feito k 0 s)
                (fun i => for_each (py_range 12) (fun j g =>
                   coluna <- py_getitem g i ;;
                   _ <- py_getitem coluna j ;;
                   linha <- py_getitem m j ;;
                   pt <- py_getitem linha i ;;
                   Ok (upd g (Z.to_nat i)
                         (fun coluna => upd coluna (Z.to_nat j) (fun _ => pt)))))
                12 g) as [g' [Hrun [Hf Hc]]].
    + split; [exact Hg | intros; lia].
    + intros k s Hk Hinv.
      destruct (for_each_range (fun l s => feito k l s)
                  (fun j g =>
                     coluna <- py_getitem g k ;;
                     _ <- py_getitem coluna j ;;
                     linha <- py_getitem m j ;;
                     pt <- py_getitem linha k ;;
                     Ok (upd g (Z.to_nat k)
                           (fun coluna => upd coluna (Z.to_nat j) (fun _ => pt))))
                  12 s) as [s1 [Hrun1 [Hf1 Hc1]]].
      * exact Hinv.
      * intros l t Hl' [Hft Hct].
        destruct (py_getitem_ok t k) as [col [-> Hin]]; [destruct Hft; lia |].
        cbn [bind].
        destruct (py_getitem_ok col l) as [it [-> _]].
        { destruct Hft as [_ Hcols]. rewrite Forall_forall in Hcols.
          rewrite (Hcols col Hin). exact Hl'. }
        cbn [bind].
        destruct (malha_getitem m l k Hlen Hrows Hl' Hk) as [E1 E2].
        rewrite E1. cbn [bind]. rewrite E2. cbn [bind].
        eexists. split; [reflexivity |]. split.
        -- apply forma_da_grade_upd. exact Hft.
        -- intros i j Hi Hj Hdone.
           destruct (Z.eq_dec i k) as [-> | Hik];
             [destruct (Z.eq_dec j l) as [-> | Hjl] |].
           ++ apply (grade_get_upd_same t 12); assumption.
           ++ rewrite grade_get_upd_other by (try lia; congruence).
              apply Hct; lia.
           ++ rewrite grade_get_upd_other by (try lia; congruence).
              apply Hct; lia.
      * exists s1. split; [exact Hrun1 |]. split; [exact Hf1 |].
        intros i j Hi Hj Hdone. apply Hc1; lia.
    + exists g'. split; [reflexivity |]. split; [exact Hrun |].
      split; [exact Hf |]. intros i j Hi Hj. apply Hc; lia.
  - (* the dots are created *)
    eexists. split; [reflexivity |]. split.
    + apply mapM_ok. intros i Hi. apply in_py_range in Hi.
      apply (mapM_ok _ (fun j => celula_malha m j i)).
      intros j Hj. apply in_py_range in Hj.
      destruct (malha_getitem m j i Hlen Hrows Hj Hi) as [E1 E2].
      rewrite E1. cbn [bind]. exact E2.
    + split.
      * split.
        -- rewrite length_map. reflexivity.
        -- apply Forall_forall. intros col Hin.
           apply in_map_iff in Hin. destruct Hin as [i [<- _]].
           rewrite length_map. reflexivity.
      * intros i j Hi Hj. unfold grade_get.
        rewrite (nth_map_range (A := list QPointF) _ [] 12 i Hi).
        rewrite (nth_map_range (A := QPointF) _ (mkPoint 0 0) 12 j Hj).
        reflexivity.
Qed.

Lemma desenhar_malha_transposta_witness :
  (exists m g',
     gerar_malha_12x12 laco_a = Ok m
     /\ desenhar_malha laco_a None = Ok g'
     /\ forma_da_grade g' 12
     /\ forall i j, 0 <= i < 12 -> 0 <= j < 12 ->
          grade_get g' i j = celula_malha m j i)
  /\ (exists m g',
        gerar_malha_12x12 laco_a = Ok m
        /\ desenhar_malha laco_a (Some (repeat (repeat (mkPoint 0 0) 12) 12)) = Ok g'
        /\ forma_da_grade g' 12
        /\ forall i j, 0 <= i < 12 -> 0 <= j < 12 ->
             grade_get g' i j = celula_malha m j i).
Proof.
  split.
  - apply (desenhar_malha_transposta laco_a None); [cbn; lia | exact I].
  - apply (desenhar_malha_transposta laco_a
             (Some (repeat (repeat (mkPoint 0 0) 12) 12))); [cbn; lia |].
    split; [reflexivity | repeat constructor].
Defined.
